(** * The Cursed Forest (game2.py): game-state machine and narrative interpreter

    A shallow embedding of [src/game2.py].  The Streamlit session dictionary
    is an explicit record that every function receives and returns; what the
    script draws ([st.write], [st.success], [st.error]) is returned as a list
    of events; the external text generator is represented by the outcome of
    its single call per turn. *)

From Stdlib Require Import String Ascii List ZArith NArith Bool Lia.
From Stdlib Require DecimalString.
Import ListNotations.
Open Scope Z_scope.

(** ** Python strings *)

(** A Python [str] is a sequence of Unicode code points. *)
Definition str := list N.

(** The [str] written by an ASCII literal of the source. *)
Definition lit (s : string) : str := map N_of_ascii (list_ascii_of_string s).

Definition nl : string := String (ascii_of_nat 10) EmptyString.

Fixpoint str_eqb (a b : str) : bool :=
  match a, b with
  | [], [] => true
  | x :: a', y :: b' => N.eqb x y && str_eqb a' b'
  | _, _ => false
  end.

Fixpoint startswith (prefix s : str) : bool :=
  match prefix, s with
  | [], _ => true
  | _ :: _, [] => false
  | p :: prefix', c :: s' => N.eqb p c && startswith prefix' s'
  end.

(** [needle in hay] on strings: [needle] is a contiguous slice of [hay]. *)
Fixpoint str_in (needle hay : str) : bool :=
  match hay with
  | [] => startswith needle []
  | _ :: hay' => startswith needle hay || str_in needle hay'
  end.

(** [x in l] on a list of strings. *)
Definition list_in (x : str) (l : list str) : bool := existsb (str_eqb x) l.

(** [l.remove(x)]: drops the first element equal to [x]; [None] stands for
    the [ValueError] Python raises when there is none. *)
Fixpoint list_remove (x : str) (l : list str) : option (list str) :=
  match l with
  | [] => None
  | y :: l' =>
      if str_eqb y x then Some l'
      else match list_remove x l' with
           | Some r => Some (y :: r)
           | None => None
           end
  end.

(** Truth value of a string in a condition: non-empty. *)
Definition truthy (s : str) : bool :=
  match s with [] => false | _ :: _ => true end.

(** [str.lower] on text whose code points are all ASCII: the letters A-Z
    move to a-z, everything else stays.  For arbitrary text [str.lower] is
    Python's Unicode mapping; the functions below take it as the argument
    [lower], and [lower_on_ascii] is what the concrete scenarios use of it. *)
Definition ascii_lower_cp (c : N) : N :=
  if (N.leb 65 c && N.leb c 90)%bool then (c + 32)%N else c.

Definition ascii_lower (s : str) : str := map ascii_lower_cp s.

Definition is_ascii (s : str) : bool := forallb (fun c => N.ltb c 128) s.

Definition lower_on_ascii (lower : str -> str) : Prop :=
  forall s, is_ascii s = true -> lower s = ascii_lower s.

(** Specification side of [in]: an occurrence as a contiguous slice. *)
Definition occurs (needle hay : str) : Prop :=
  exists pre post, hay = pre ++ needle ++ post.

(** ** Game state and session state *)

(** [st.session_state.game_state]: the dictionary with its four keys. *)
Record GameState := mk_game {
  health : Z;
  inventory : list str;
  choices_made : Z;
  found_item : option str
}.

Definition set_health (h : Z) (g : GameState) : GameState :=
  mk_game h (inventory g) (choices_made g) (found_item g).

Definition set_inventory (inv : list str) (g : GameState) : GameState :=
  mk_game (health g) inv (choices_made g) (found_item g).

Definition set_choices_made (c : Z) (g : GameState) : GameState :=
  mk_game (health g) (inventory g) c (found_item g).

Definition set_found_item (f : option str) (g : GameState) : GameState :=
  mk_game (health g) (inventory g) (choices_made g) f.

(** The value [initialize_session_state] stores under ["game_state"]. *)
Definition initial_game_state : GameState := mk_game 100 [] 0 None.

(** The ["role"] of a conversation entry: ["model"] or ["user"]. *)
Inductive role := role_model | role_user.

(** [{"role": r, "parts": [{"text": t}]}]. *)
Record message := mk_message { msg_role : role; msg_text : str }.

(** What the script shows, by call site. *)
Inductive ui_event :=
| st_error_generating            (* generate_story_response: st.error *)
| st_write_found (item : str)    (* update_game_state: st.write *)
| st_success_added (item : str)  (* add_item_to_inventory: st.success *)
| st_success_potion              (* use_health_potion: st.success *)
| st_error_no_potion             (* use_health_potion: st.error *)
| st_error_game_over.            (* main: st.error *)

(** ** generate_story_response *)

Definition fallback_text : str :=
  lit "Something went wrong in the forest... Please try again.".

(** [reply] is the outcome of the calls inside the [try] block:
    [Some text] when [response.text] is returned, [None] when an exception
    was raised. *)
Definition generate_story_response (reply : option str) : str * list ui_event :=
  match reply with
  | Some text => (text, [])
  | None => (fallback_text, [st_error_generating])
  end.

(** ** update_game_state *)

Definition dangerous_actions : list str :=
  map lit ["fight"; "confront"; "explore"; "approach"; "follow";
           "ignore warning"; "trap"; "venture deeper"]%string.

(** The dictionary [inventory_items], in insertion order. *)
Definition inventory_items : list (str * str) :=
  [ (lit "potion", lit "You found a **potion**!");
    (lit "sword", lit "You found a **sword**!");
    (lit "key", lit "You found a **key**!");
    (lit "map", lit "You found a **map**!");
    (lit "shield", lit "You found a **shield**!");
    (lit "amulet", lit "You found an **amulet**!");
    (lit "health_potion", lit "You found a **health potion**!") ].

Definition catalog_keys : list str := map fst inventory_items.

(** [f"**{item}**"]. *)
Definition marked (item : str) : str := lit "**" ++ item ++ lit "**".

(** One iteration of the first loop. *)
Definition danger_step (lowered : str) (h : Z) (action : str) : Z :=
  if str_in action lowered then h - 15 else h.

(** One iteration of the second loop. *)
Definition item_step (lowered : str) (acc : GameState * list ui_event)
    (entry : str * str) : GameState * list ui_event :=
  let '(g, out) := acc in
  let '(item, notification) := entry in
  if str_in (marked item) lowered then
    (set_choices_made (choices_made g + 1) (set_found_item (Some item) g),
     out ++ [st_write_found item])
  else (g, out).

Definition update_game_state (lower : str -> str) (response_text : str)
    (g : GameState) : GameState * list ui_event :=
  let h := fold_left (danger_step (lower response_text)) dangerous_actions (health g) in
  let g1 := set_health (Z.max h 0) g in
  fold_left (item_step (lower response_text)) inventory_items (g1, []).

(** ** add_item_to_inventory and use_health_potion *)

Definition add_item_to_inventory (g : GameState) : GameState * list ui_event :=
  match found_item g with
  | Some item =>
      if (truthy item && negb (list_in item (inventory g)))%bool then
        (set_found_item None (set_inventory (inventory g ++ [item]) g),
         [st_success_added item])
      else (g, [])
  | None => (g, [])
  end.

Definition health_potion : str := lit "health_potion".

(** [None]: an exception leaves the function ([list.remove]). *)
Definition use_health_potion (g : GameState) : option (GameState * list ui_event) :=
  if list_in health_potion (inventory g) then
    let g1 := set_health (health g + 30) g in
    let g2 := set_health (Z.min (health g1) 100) g1 in
    match list_remove health_potion (inventory g2) with
    | Some inv => Some (set_inventory inv g2, [st_success_potion])
    | None => None
    end
  else Some (g, [st_error_no_potion]).

(** ** The session and one run of the script *)

(** [st.session_state]: each of the three keys is present or absent. *)
Record session_state := mk_session_state {
  ss_conversation_history : option (list message);
  ss_messages : option (list message);
  ss_game_state : option GameState
}.

(** The session once every key is present. *)
Record session := mk_session {
  conversation_history : list message;
  messages : list message;
  game_state : GameState
}.

(** [st.session_state.clear()]. *)
Definition session_clear : session_state := mk_session_state None None None.

Definition store (s : session) : session_state :=
  mk_session_state (Some (conversation_history s)) (Some (messages s))
    (Some (game_state s)).

Definition initialize_session_state (ss : session_state) : session :=
  mk_session
    (match ss_conversation_history ss with Some h => h | None => [] end)
    (match ss_messages ss with Some m => m | None => [] end)
    (match ss_game_state ss with Some g => g | None => initial_game_state end).

Definition intro_text : str :=
  lit ("Welcome, brave soul! You are Kaelen, a wanderer who finds yourself lost in the mysterious Cursed Forest. "
    ++ "Strange creatures, hidden dangers, and an ancient curse lurk in the shadows. Legend has it that the heart "
    ++ "of the forest holds a powerful artifact, but no one who has ventured deep enough has ever returned." ++ nl ++ nl
    ++ "Your adventure begins at the edge of the forest, where an eerie fog hangs in the air. You notice:" ++ nl ++ nl
    ++ "1. A narrow path leading deeper into the woods" ++ nl
    ++ "2. A strange glowing mushroom near a hollow tree" ++ nl
    ++ "3. The sound of running water in the distance" ++ nl ++ nl
    ++ "What would you like to do?")%string.

Definition intro_message : message := mk_message role_model intro_text.

(** What the page sends to one run of the script: at most one widget fires. *)
Inductive widget_input :=
| no_input
| click_restart_game        (* sidebar button "Restart Game" *)
| click_start_new_game      (* button "Start New Game" *)
| click_pick_up             (* button "Pick up ..." *)
| click_use_health_potion   (* button "Use Health Potion" *)
| chat_input (text : str).  (* st.chat_input *)

Definition button_restart_game (w : widget_input) : bool :=
  match w with click_restart_game => true | _ => false end.

Definition button_start_new_game (w : widget_input) : bool :=
  match w with click_start_new_game => true | _ => false end.

Definition button_pick_up (w : widget_input) : bool :=
  match w with click_pick_up => true | _ => false end.

Definition button_use_health_potion (w : widget_input) : bool :=
  match w with click_use_health_potion => true | _ => false end.

(** The value of [user_input] when it is truthy. *)
Definition user_input (w : widget_input) : option str :=
  match w with
  | chat_input text => if truthy text then Some text else None
  | _ => None
  end.

(** [if st.session_state.game_state['found_item']:]. *)
Definition found_item_truthy (g : GameState) : bool :=
  match found_item g with Some item => truthy item | None => false end.

(** The introduction is appended to both lists when the history is empty. *)
Definition ensure_intro (s : session) : session :=
  match conversation_history s with
  | [] => mk_session (conversation_history s ++ [intro_message])
            (messages s ++ [intro_message]) (game_state s)
  | _ :: _ => s
  end.

(** The turn of lines 194-207, once [user_input] is known to be [text]. *)
Definition play_turn (lower : str -> str) (text : str) (reply : option str)
    (s : session) : session * list ui_event :=
  let user_message := mk_message role_user text in
  let hist := conversation_history s ++ [user_message] in
  let msgs := messages s ++ [user_message] in
  let g := set_choices_made (choices_made (game_state s) + 1) (game_state s) in
  let '(response, out_gen) := generate_story_response reply in
  let '(g', out_upd) := update_game_state lower response g in
  let ai_message := mk_message role_model response in
  (mk_session (hist ++ [ai_message]) (msgs ++ [ai_message]) g', out_gen ++ out_upd).

(** One run of [main].  The result is the session dictionary it leaves,
    what it showed, and whether it ended in [st.rerun()]; [None] when an
    exception escapes.  The rendering of [messages] only draws and is left
    out here (see [render_message]).  The call of [display_game_state] is
    left out here as well: it changes no state, but its progress bar raises
    when health is above 100; [main_page] below is this run with that call
    in its place. *)
Definition main (lower : str -> str) (ss : session_state) (w : widget_input)
    (reply : option str) : option (session_state * list ui_event * bool) :=
  let s := initialize_session_state ss in
  if button_restart_game w then Some (session_clear, [], true)
  else
    let s := ensure_intro s in
    if health (game_state s) <=? 0 then
      if button_start_new_game w then Some (session_clear, [st_error_game_over], true)
      else Some (store s, [st_error_game_over], false)
    else
      let '(g1, out1) :=
        if (found_item_truthy (game_state s) && button_pick_up w)%bool
        then add_item_to_inventory (game_state s)
        else (game_state s, []) in
      match (if (list_in health_potion (inventory g1) && button_use_health_potion w)%bool
             then use_health_potion g1
             else Some (g1, []))
      with
      | None => None
      | Some (g2, out2) =>
          let s2 := mk_session (conversation_history s) (messages s) g2 in
          match user_input w with
          | Some text =>
              let '(s3, out3) := play_turn lower text reply s2 in
              Some (store s3, out1 ++ out2 ++ out3, true)
          | None => Some (store s2, out1 ++ out2, false)
          end
      end.

(** A run together with the run [st.rerun()] starts: no widget fires in it. *)
Definition run (lower : str -> str) (ss : session_state) (w : widget_input)
    (reply : option str) : option (session_state * list ui_event) :=
  match main lower ss w reply with
  | Some (ss1, out1, true) =>
      match main lower ss1 no_input None with
      | Some (ss2, out2, _) => Some (ss2, out1 ++ out2)
      | None => None
      end
  | Some (ss1, out1, false) => Some (ss1, out1)
  | None => None
  end.

(** Scan results, as lists in vocabulary and catalog order. *)
Definition danger_hits (lowered : str) : list str :=
  filter (fun action => str_in action lowered) dangerous_actions.

Definition item_hits (lowered : str) : list str :=
  filter (fun item => str_in (marked item) lowered) catalog_keys.

(** [found_item], if set, is a key of the catalog. *)
Definition found_known (g : GameState) : Prop :=
  match found_item g with
  | Some item => In item catalog_keys
  | None => True
  end.

(** What every operation keeps: [found_item] names a catalog key, the
    inventory holds no identifier twice, and health lies in [0,100]. *)
Definition game_inv (g : GameState) : Prop :=
  found_known g /\ NoDup (inventory g) /\ 0 <= health g <= 100.

Definition session_inv (ss : session_state) : Prop :=
  match ss_game_state ss with
  | Some g => game_inv g
  | None => True
  end.

(** ** The request of generate_story_response *)

(** [str(n)] for an integer: its decimal digits, with a minus sign below 0. *)
Definition str_of_int (n : Z) : str :=
  lit (DecimalString.NilZero.string_of_int (Z.to_int n)).

(** [sep.join(l)]. *)
Fixpoint str_join (sep : str) (l : list str) : str :=
  match l with
  | [] => []
  | [x] => x
  | x :: l' => x ++ sep ++ str_join sep l'
  end.

Definition indent : string := "        ".

(** The f-string [context], read from the game state at the time of the call. *)
Definition context (g : GameState) : str :=
  lit (nl ++ indent ++ "Current game state:" ++ nl
       ++ indent ++ "- Health: ")%string
  ++ str_of_int (health g)
  ++ lit (nl ++ indent ++ "- Inventory: ")%string
  ++ (match inventory g with
      | [] => lit "empty"
      | _ :: _ => str_join (lit ", ") (inventory g)
      end)
  ++ lit (nl ++ indent ++ "- Choices made: ")%string
  ++ str_of_int (choices_made g)
  ++ lit (nl ++ indent ++ nl
       ++ indent ++ "Please continue the story and provide 2-3 clear choices for the player." ++ nl
       ++ indent ++ "Highlight items the player finds in the story with ** so they are easy to pick up." ++ nl
       ++ indent ++ "Easy to find health_potion when health is lower than 30." ++ nl
       ++ indent)%string.

(** [l[-1]]: [None] stands for the [IndexError] on an empty list. *)
Definition last_message (l : list message) : option message :=
  last (map Some l) None.

(** [generate_story_response] with the call written out.  [chat history msg]
    is what [create_model], [start_chat(history=...)] and [send_message(msg)]
    return together: [Some text] for [response.text], [None] when one of
    them raises.  Indexing the empty history raises inside the same [try]. *)
Definition generate_story_response_call
    (chat : list message -> str -> option str)
    (conversation_history : list message) (g : GameState) : str * list ui_event :=
  generate_story_response
    (match last_message conversation_history with
     | Some m => chat conversation_history (msg_text m ++ lit nl ++ context g)
     | None => None
     end).

(** [play_turn] and [main] with the generator as a function of its request
    (the sidebar left out as in [main]). *)
Definition play_turn_call (chat : list message -> str -> option str)
    (lower : str -> str) (text : str) (s : session) : session * list ui_event :=
  let user_message := mk_message role_user text in
  let hist := conversation_history s ++ [user_message] in
  let msgs := messages s ++ [user_message] in
  let g := set_choices_made (choices_made (game_state s) + 1) (game_state s) in
  let '(response, out_gen) := generate_story_response_call chat hist g in
  let '(g', out_upd) := update_game_state lower response g in
  let ai_message := mk_message role_model response in
  (mk_session (hist ++ [ai_message]) (msgs ++ [ai_message]) g', out_gen ++ out_upd).

Definition main_call (chat : list message -> str -> option str)
    (lower : str -> str) (ss : session_state) (w : widget_input)
    : option (session_state * list ui_event * bool) :=
  let s := initialize_session_state ss in
  if button_restart_game w then Some (session_clear, [], true)
  else
    let s := ensure_intro s in
    if health (game_state s) <=? 0 then
      if button_start_new_game w then Some (session_clear, [st_error_game_over], true)
      else Some (store s, [st_error_game_over], false)
    else
      let '(g1, out1) :=
        if (found_item_truthy (game_state s) && button_pick_up w)%bool
        then add_item_to_inventory (game_state s)
        else (game_state s, []) in
      match (if (list_in health_potion (inventory g1) && button_use_health_potion w)%bool
             then use_health_potion g1
             else Some (g1, []))
      with
      | None => None
      | Some (g2, out2) =>
          let s2 := mk_session (conversation_history s) (messages s) g2 in
          match user_input w with
          | Some text =>
              let '(s3, out3) := play_turn_call chat lower text s2 in
              Some (store s3, out1 ++ out2 ++ out3, true)
          | None => Some (store s2, out1 ++ out2, false)
          end
      end.

(** ** Drawing the conversation *)

(** [s.replace(old, new)] scanning from the left; [skip] counts the
    characters of a replaced occurrence still to pass over. *)
Fixpoint replace_from (old new : str) (skip : nat) (s : str) : str :=
  match s with
  | [] => []
  | c :: s' =>
      match skip with
      | S k => replace_from old new k s'
      | O =>
          if startswith old s
          then new ++ replace_from old new (length old - 1) s'
          else c :: replace_from old new 0 s'
      end
  end.

(** With an empty [old], Python puts [new] before every character and at
    the end. *)
Definition str_replace (old new s : str) : str :=
  match old with
  | [] => new ++ flat_map (fun c => c :: new) s
  | _ :: _ => replace_from old new 0 s
  end.

Definition span_open : str := lit "<span class='highlight'>".
Definition span_close : str := lit "</span>".

(** [text.replace("**", "<span class='highlight'>").replace("**", "</span>")]. *)
Definition highlighted_text (text : str) : str :=
  str_replace (lit "**") span_close (str_replace (lit "**") span_open text).

(** What the loop over [messages] hands to [st.chat_message] and
    [st.markdown] for one entry. *)
Definition render_message (m : message) : str * str :=
  ((match msg_role m with
    | role_model => lit "assistant"
    | role_user => lit "user"
    end),
   highlighted_text (msg_text m)).

(** ** Sessions over several runs *)

(** The page driven through a list of inputs, each with the outcome the
    generator would have in that run. *)
Fixpoint runs (lower : str -> str) (ss : session_state)
    (inputs : list (widget_input * option str)) : option session_state :=
  match inputs with
  | [] => Some ss
  | (w, reply) :: rest =>
      match run lower ss w reply with
      | Some (ss', _) => runs lower ss' rest
      | None => None
      end
  end.

(** The log as turns: the introduction, then player and narrator in pairs. *)
Fixpoint log_of_turns (turns : list (str * str)) : list message :=
  match turns with
  | [] => []
  | (player, narrator) :: rest =>
      mk_message role_user player :: mk_message role_model narrator
        :: log_of_turns rest
  end.

Definition log_inv (ss : session_state) : Prop :=
  ss_messages ss = ss_conversation_history ss /\
  match ss_conversation_history ss with
  | Some h => h = [] \/ exists turns, h = intro_message :: log_of_turns turns
  | None => True
  end.

(** Every carried item is a catalog key. *)
Definition inventory_known (g : GameState) : Prop :=
  forall item, In item (inventory g) -> In item catalog_keys.

(** What holds of the game state in every session the page can reach. *)
Definition game_reach_inv (g : GameState) : Prop :=
  game_inv g /\ inventory_known g /\ 0 <= choices_made g.

Definition session_reach_inv (ss : session_state) : Prop :=
  match ss_game_state ss with
  | Some g => game_reach_inv g
  | None => True
  end.

(** The lists a session holds, an absent key read as the empty list. *)
Definition history_of (ss : session_state) : list message :=
  match ss_conversation_history ss with Some h => h | None => [] end.

Definition messages_of (ss : session_state) : list message :=
  match ss_messages ss with Some m => m | None => [] end.

(** What [main] appends before anything else when the history is empty. *)
Definition intro_part (ss : session_state) : list message :=
  match history_of ss with [] => [intro_message] | _ :: _ => [] end.

(** ** The sidebar *)

(** What [display_game_state] puts in the sidebar.  The argument of
    [st.sidebar.progress] is the float [max(0, health) / 100]; it is given
    by its numerator, in hundredths. *)
Inductive sidebar_event :=
| sidebar_header (s : str)
| sidebar_progress (hundredths : Z)
| sidebar_write (s : str)
| sidebar_subheader (s : str)
| sidebar_markdown (s : str).

(** [str.capitalize] on ASCII text: the first letter upper case, the rest
    lower case. *)
Definition ascii_upper_cp (c : N) : N :=
  if (N.leb 97 c && N.leb c 122)%bool then (c - 32)%N else c.

Definition ascii_capitalize (s : str) : str :=
  match s with
  | [] => []
  | c :: rest => ascii_upper_cp c :: ascii_lower rest
  end.

(** One line of the inventory; [capitalize] is [str.capitalize]. *)
Definition inventory_line (capitalize : str -> str) (item : str) : sidebar_event :=
  if str_eqb item health_potion
  then sidebar_markdown
         (lit "- **" ++ capitalize item ++ lit "** (Use to restore health)")
  else sidebar_write (lit "- " ++ capitalize item).

(** [display_game_state].  [st.sidebar.progress] accepts a float between
    0.0 and 1.0 and raises otherwise; [max(0, health) / 100] is above 1.0
    exactly when health is above 100.  [None] stands for that exception. *)
Definition display_game_state (capitalize : str -> str) (g : GameState)
    : option (list sidebar_event) :=
  let shown := Z.max 0 (health g) in
  if 100 <? shown then None
  else
    Some ([sidebar_header (lit "Game Status");
           sidebar_progress shown;
           sidebar_write (lit "Health: " ++ str_of_int shown ++ lit "%");
           sidebar_subheader (lit "Inventory")]
          ++ (match inventory g with
              | [] => [sidebar_write (lit "Empty")]
              | _ :: _ => map (inventory_line capitalize) (inventory g)
              end)
          ++ [sidebar_write (lit "Choices made: " ++ str_of_int (choices_made g))]).

(** One run of the script with the sidebar drawn where [main] draws it:
    after the restart button and the introduction, before everything else.
    When the sidebar raises the run stops there. *)
Definition main_page (capitalize lower : str -> str) (ss : session_state)
    (w : widget_input) (reply : option str)
    : option (session_state * list ui_event * bool) :=
  if button_restart_game w then main lower ss w reply
  else
    match display_game_state capitalize
            (game_state (ensure_intro (initialize_session_state ss))) with
    | None => None
    | Some _ => main lower ss w reply
    end.

Definition run_page (capitalize lower : str -> str) (ss : session_state)
    (w : widget_input) (reply : option str) : option (session_state * list ui_event) :=
  match main_page capitalize lower ss w reply with
  | Some (ss1, out1, true) =>
      match main_page capitalize lower ss1 no_input None with
      | Some (ss2, out2, _) => Some (ss2, out1 ++ out2)
      | None => None
      end
  | Some (ss1, out1, false) => Some (ss1, out1)
  | None => None
  end.

Fixpoint runs_page (capitalize lower : str -> str) (ss : session_state)
    (inputs : list (widget_input * option str)) : option session_state :=
  match inputs with
  | [] => Some ss
  | (w, reply) :: rest =>
      match run_page capitalize lower ss w reply with
      | Some (ss', _) => runs_page capitalize lower ss' rest
      | None => None
      end
  end.

(** ** Strings and lists: the boolean tests against their meaning *)

Lemma str_eqb_eq (a b : str) : str_eqb a b = true <-> a = b.
Proof.
  revert b; induction a as [|x a IH]; intros [|y b]; simpl; split; intro H;
    try reflexivity; try discriminate.
  - apply andb_true_iff in H as [Hx Hr].
    apply N.eqb_eq in Hx. apply IH in Hr. congruence.
  - injection H as -> ->. apply andb_true_iff; split.
    + apply N.eqb_refl.
    + now apply IH.
Qed.

Lemma str_eqb_refl (a : str) : str_eqb a a = true.
Proof. now apply str_eqb_eq. Qed.

Lemma list_in_In (x : str) (l : list str) : list_in x l = true <-> In x l.
Proof.
  unfold list_in. rewrite existsb_exists. split.
  - intros (y & Hy & He). apply str_eqb_eq in He. now subst.
  - intros H. exists x. split; [assumption | apply str_eqb_refl].
Qed.

Lemma list_in_false (x : str) (l : list str) : list_in x l = false <-> ~ In x l.
Proof.
  rewrite <- list_in_In. destruct (list_in x l); split; intro H;
    try reflexivity; try discriminate; try congruence.
Qed.

Lemma startswith_spec (p s : str) :
  startswith p s = true <-> exists post, s = p ++ post.
Proof.
  revert s; induction p as [|c p IH]; intros s; simpl.
  - split; [intros _; now exists s | reflexivity].
  - destruct s as [|d s].
    + split; [discriminate | intros (post & H); discriminate].
    + rewrite andb_true_iff, N.eqb_eq, IH. split.
      * intros (-> & post & ->). now exists post.
      * intros (post & H). injection H as -> ->. split; [reflexivity | now exists post].
Qed.

Lemma str_in_occurs (needle hay : str) :
  str_in needle hay = true <-> occurs needle hay.
Proof.
  unfold occurs. induction hay as [|c hay IH]; simpl.
  - rewrite startswith_spec. split.
    + intros (post & H). now exists [], post.
    + intros (pre & post & H). destruct pre as [|x pre]; [|discriminate].
      now exists post.
  - rewrite orb_true_iff, IH, startswith_spec. split.
    + intros [(post & H) | (pre & post & H)].
      * now exists [], post.
      * exists (c :: pre), post. simpl. now f_equal.
    + intros (pre & post & H). destruct pre as [|x pre].
      * left. now exists post.
      * right. injection H as _ H. now exists pre, post.
Qed.

Lemma str_in_false (needle hay : str) :
  str_in needle hay = false <-> ~ occurs needle hay.
Proof.
  rewrite <- str_in_occurs. destruct (str_in needle hay); split; intro H;
    try reflexivity; try discriminate; try congruence.
Qed.

(** [l.remove(x)] succeeds exactly when [x] is in [l], and then cuts the
    first occurrence out, keeping the rest in order. *)
Lemma list_remove_In (x : str) (l : list str) :
  In x l ->
  exists l1 l2, l = l1 ++ x :: l2 /\ ~ In x l1 /\ list_remove x l = Some (l1 ++ l2).
Proof.
  induction l as [|y l IH]; simpl; [contradiction|]. intros H.
  destruct (str_eqb y x) eqn:E.
  - apply str_eqb_eq in E. subst y. exists [], l. simpl. auto.
  - assert (Hin : In x l).
    { destruct H as [->|H]; [|assumption]. rewrite str_eqb_refl in E. discriminate. }
    destruct (IH Hin) as (l1 & l2 & -> & Hn & ->).
    exists (y :: l1), l2. simpl. repeat split; try reflexivity.
    intros [->|H1]; [|now apply Hn]. rewrite str_eqb_refl in E. discriminate.
Qed.

Lemma list_remove_not_In (x : str) (l : list str) :
  ~ In x l -> list_remove x l = None.
Proof.
  induction l as [|y l IH]; simpl; [reflexivity|]. intros H.
  destruct (str_eqb y x) eqn:E.
  - apply str_eqb_eq in E. subst. contradiction H. now left.
  - rewrite IH; [reflexivity | tauto].
Qed.

Lemma ascii_lower_on_ascii : lower_on_ascii ascii_lower.
Proof. intros s _. reflexivity. Qed.

(** ** The two loops of update_game_state in closed form *)

Lemma danger_loop (t : str) (l : list str) (h : Z) :
  fold_left (danger_step t) l h =
  h - 15 * Z.of_nat (length (filter (fun action => str_in action t) l)).
Proof.
  revert h; induction l as [|a l IH]; intros h; cbn [fold_left filter length].
  - lia.
  - rewrite IH. unfold danger_step.
    destruct (str_in a t); cbn [length]; lia.
Qed.

Lemma last_nonempty {A : Type} (x : A) (l : list A) (d d' : A) :
  last (x :: l) d = last (x :: l) d'.
Proof.
  revert x; induction l as [|y l IH]; intros x; [reflexivity|].
  change (last (y :: l) d = last (y :: l) d'). apply IH.
Qed.

Lemma item_loop (t : str) (l : list (str * str)) (g : GameState) (out : list ui_event) :
  let hits := filter (fun item => str_in (marked item) t) (map fst l) in
  fold_left (item_step t) l (g, out) =
  (mk_game (health g) (inventory g)
     (choices_made g + Z.of_nat (length hits))
     (last (map Some hits) (found_item g)),
   out ++ map st_write_found hits).
Proof.
  revert g out; induction l as [|[item note] l IH]; intros g out;
    cbn [fold_left map filter fst length].
  - destruct g; cbn. rewrite Z.add_0_r, app_nil_r. reflexivity.
  - cbv zeta in IH.
    change (item_step t (g, out) (item, note)) with
      (if str_in (marked item) t
       then (set_choices_made (choices_made g + 1) (set_found_item (Some item) g),
             out ++ [st_write_found item])
       else (g, out)).
    destruct (str_in (marked item) t) eqn:E; rewrite IH; [|reflexivity].
    cbn [health inventory choices_made found_item set_choices_made
         set_found_item length map].
    rewrite <- app_assoc. cbn [app]. f_equal. f_equal; [lia|].
    set (hits := filter _ (map fst l)).
    destruct hits as [|i hits]; [reflexivity|].
    cbn [map]. rewrite (last_nonempty (Some i) _ (Some item) (found_item g)).
    reflexivity.
Qed.

(** [update_game_state] in closed form: the scans as lists of hits. *)
Lemma update_game_state_closed (lower : str -> str) (text : str) (g : GameState) :
  update_game_state lower text g =
  (mk_game
     (Z.max (health g - 15 * Z.of_nat (length (danger_hits (lower text)))) 0)
     (inventory g)
     (choices_made g + Z.of_nat (length (item_hits (lower text))))
     (last (map Some (item_hits (lower text))) (found_item g)),
   map st_write_found (item_hits (lower text))).
Proof.
  unfold update_game_state. cbv zeta. rewrite item_loop, danger_loop.
  reflexivity.
Qed.

(** ** What the scans find *)

Lemma danger_hits_spec (t k : str) :
  In k (danger_hits t) <-> In k dangerous_actions /\ occurs k t.
Proof. unfold danger_hits. rewrite filter_In, str_in_occurs. reflexivity. Qed.

Lemma item_hits_spec (t k : str) :
  In k (item_hits t) <-> In k catalog_keys /\ occurs (marked k) t.
Proof. unfold item_hits. rewrite filter_In, str_in_occurs. reflexivity. Qed.

(** A closed list of distinct literals has no repetition. *)
Ltac nodup_literals :=
  vm_compute;
  repeat (constructor; [intros H; cbn in H; intuition discriminate|]);
  constructor.

(** [Hk : In k l] for a closed list [l]: try [tac] on each element, and
    close with [Hne : k <> x] the case where [k] is the excluded [x]. *)
Ltac each_literal Hk Hne tac :=
  vm_compute in Hk;
  repeat (destruct Hk as [<- | Hk]; [first [tac | now contradiction Hne]|]);
  contradiction.

Lemma dangerous_actions_NoDup : NoDup dangerous_actions.
Proof. nodup_literals. Qed.

Lemma catalog_keys_NoDup : NoDup catalog_keys.
Proof. nodup_literals. Qed.

Lemma danger_hits_NoDup (t : str) : NoDup (danger_hits t).
Proof. apply NoDup_filter, dangerous_actions_NoDup. Qed.

(** The hits only depend on which vocabulary words occur. *)
Lemma danger_hits_ext (t1 t2 : str) :
  (forall k, In k dangerous_actions -> (occurs k t1 <-> occurs k t2)) ->
  danger_hits t1 = danger_hits t2.
Proof.
  intros H. unfold danger_hits. apply filter_ext_in. intros k Hk.
  specialize (H k Hk). rewrite <- !str_in_occurs in H.
  destruct (str_in k t1), (str_in k t2); try reflexivity.
  - symmetry. now apply H.
  - now apply H.
Qed.

(** ** C3: the danger scan *)

(** C3.  For every response text and every starting health in [0,100]:
    with N the number of vocabulary keywords that occur as contiguous
    slices of the case-normalized text (the list [danger_hits], which has no
    repetition and holds exactly the keywords that occur), the health after
    [update_game_state] is max(h - 15*N, 0) and lies in [0,100]; N counts
    keywords, not occurrences: two texts in which the same keywords occur
    leave the same health. *)
Theorem C3_danger_scan (lower : str -> str) (text : str) (g : GameState) :
  0 <= health g <= 100 ->
  let hits := danger_hits (lower text) in
  let N := Z.of_nat (length hits) in
  let g' := fst (update_game_state lower text g) in
  (NoDup hits /\
   forall k, In k hits <-> In k dangerous_actions /\ occurs k (lower text)) /\
  health g' = Z.max (health g - 15 * N) 0 /\
  0 <= health g' <= 100 /\
  (forall text2,
     (forall k, In k dangerous_actions ->
        (occurs k (lower text) <-> occurs k (lower text2))) ->
     health (fst (update_game_state lower text2 g)) = health g').
Proof.
  intros Hh hits N g'. subst g'. rewrite update_game_state_closed.
  cbn [fst health]. fold hits. fold N.
  split; [split; [apply danger_hits_NoDup | apply danger_hits_spec]|].
  split; [reflexivity|]. split; [lia|].
  intros text2 H. rewrite update_game_state_closed. cbn [fst health].
  rewrite <- (danger_hits_ext _ _ H). reflexivity.
Qed.

(** C3 at a text where "fight" occurs twice and "trap" once, from health 20. *)
Lemma C3_danger_scan_witness :
  0 <= health (mk_game 20 [] 0 None) <= 100 /\
  danger_hits (ascii_lower (lit "You FIGHT, fight again, and spring a Trap.")) =
    [lit "fight"; lit "trap"] /\
  health (fst (update_game_state ascii_lower
                 (lit "You FIGHT, fight again, and spring a Trap.")
                 (mk_game 20 [] 0 None))) = 0.
Proof.
  split; [cbn; lia|]. split; [vm_compute; reflexivity|].
  destruct (C3_danger_scan ascii_lower
              (lit "You FIGHT, fight again, and spring a Trap.")
              (mk_game 20 [] 0 None)) as (_ & H & _); [cbn; lia|].
  rewrite H. vm_compute. reflexivity.
Defined.

(** ** C1: the item scan *)

(** The last element a filter keeps, located in the filtered list. *)
Lemma filter_last_split {A : Type} (p : A -> bool) (l : list A) :
  filter p l = [] \/
  exists pre x post,
    l = pre ++ x :: post /\ p x = true /\
    (forall k, In k post -> p k = false) /\
    forall d, last (map Some (filter p l)) d = Some x.
Proof.
  induction l as [|a l IH] using rev_ind; [now left|].
  rewrite filter_app. cbn [filter]. destruct (p a) eqn:Ea.
  - right. exists l, a, []. repeat split; try assumption.
    + intros k [].
    + intros d. rewrite map_app. cbn [map]. apply last_last.
  - rewrite app_nil_r. destruct IH as [IH | (pre & x & post & -> & Hx & Hpost & Hlast)].
    + now left.
    + right. exists pre, x, (post ++ [a]). repeat split; try assumption.
      * rewrite <- app_assoc. reflexivity.
      * intros k Hk. apply in_app_or in Hk as [Hk | [<- | []]]; auto.
Qed.

(** C1, as the code has it.  For every response text, [found_item] holds at
    most one item after the scan: the LAST catalog entry, in the fixed
    enumeration order, whose marker-wrapped form occurs in the
    case-normalized text, whatever the positions in the text; when no marked
    catalog entry occurs, [found_item] and [choices_made] stay as they were.
    [choices_made] grows by one, and one notice is written, for each catalog
    entry whose marked form occurs: exactly once when exactly one does. *)
Theorem C1_item_scan (lower : str -> str) (text : str) (g : GameState) :
  let hits := item_hits (lower text) in
  let r := update_game_state lower text g in
  (forall k, In k hits <-> In k catalog_keys /\ occurs (marked k) (lower text)) /\
  choices_made (fst r) = choices_made g + Z.of_nat (length hits) /\
  snd r = map st_write_found hits /\
  (hits = [] -> found_item (fst r) = found_item g) /\
  (hits <> [] ->
   exists pre item post,
     catalog_keys = pre ++ item :: post /\
     occurs (marked item) (lower text) /\
     (forall k, In k post -> ~ occurs (marked k) (lower text)) /\
     found_item (fst r) = Some item) /\
  (forall item, hits = [item] ->
     found_item (fst r) = Some item /\
     choices_made (fst r) = choices_made g + 1).
Proof.
  intros hits r. subst r. rewrite update_game_state_closed.
  cbn [fst snd choices_made found_item]. fold hits.
  split; [apply item_hits_spec|]. split; [reflexivity|]. split; [reflexivity|].
  split; [intros ->; reflexivity|]. split.
  - intros Hne.
    destruct (filter_last_split (fun item => str_in (marked item) (lower text))
                catalog_keys) as [He | (pre & x & post & Hc & Hx & Hpost & Hlast)].
    + contradiction Hne.
    + exists pre, x, post. repeat split.
      * assumption.
      * now apply str_in_occurs.
      * intros k Hk. apply str_in_false. now apply Hpost.
      * apply Hlast.
  - intros item ->. split; reflexivity.
Qed.

(** C1 at a text with exactly one marked catalog entry. *)
Lemma C1_item_scan_witness :
  item_hits (ascii_lower (lit "Under the roots lies a **Sword**.")) = [lit "sword"] /\
  found_item (fst (update_game_state ascii_lower
                     (lit "Under the roots lies a **Sword**.")
                     (mk_game 100 [] 4 None))) = Some (lit "sword") /\
  choices_made (fst (update_game_state ascii_lower
                       (lit "Under the roots lies a **Sword**.")
                       (mk_game 100 [] 4 None))) = 4 + 1.
Proof.
  split; [vm_compute; reflexivity|].
  apply (C1_item_scan ascii_lower (lit "Under the roots lies a **Sword**.")
           (mk_game 100 [] 4 None)).
  vm_compute. reflexivity.
Defined.

(** First-entry-wins fails where two marked items occur: with both
    **sword** and **map** in the text, sword first, the item kept is map (the
    later catalog entry), two notices are written and [choices_made] grows
    by two. *)
Lemma C1_counterexample :
  let r := update_game_state ascii_lower
             (lit "You see a **sword** lying on a **map**.") initial_game_state in
  found_item (fst r) = Some (lit "map") /\
  found_item (fst r) <> Some (lit "sword") /\
  choices_made (fst r) = choices_made initial_game_state + 2 /\
  snd r = [st_write_found (lit "sword"); st_write_found (lit "map")].
Proof.
  vm_compute. repeat split; try reflexivity. discriminate.
Qed.

(** ** C4: use_health_potion *)

Lemma use_health_potion_total (g : GameState) :
  exists r, use_health_potion g = Some r.
Proof.
  unfold use_health_potion. destruct (list_in health_potion (inventory g)) eqn:E.
  - apply list_in_In in E.
    destruct (list_remove_In _ _ E) as (l1 & l2 & _ & _ & Hr).
    cbn [inventory set_health]. rewrite Hr. eauto.
  - eauto.
Qed.

(** C4.  [use_health_potion] takes its error branch (the message "You don't
    have any health potions!") exactly when health_potion is not in the
    inventory, and then returns the state as it was; otherwise it cuts the
    first health_potion out of the inventory, leaving every other entry in
    place, and sets health to min(health + 30, 100). *)
Theorem C4_use_health_potion (g : GameState) :
  ((exists g', use_health_potion g = Some (g', [st_error_no_potion])) <->
   ~ In health_potion (inventory g)) /\
  (~ In health_potion (inventory g) ->
   use_health_potion g = Some (g, [st_error_no_potion])) /\
  (In health_potion (inventory g) ->
   exists l1 l2,
     inventory g = l1 ++ health_potion :: l2 /\
     ~ In health_potion l1 /\
     use_health_potion g =
       Some (mk_game (Z.min (health g + 30) 100) (l1 ++ l2)
               (choices_made g) (found_item g),
             [st_success_potion])).
Proof.
  assert (Hno : ~ In health_potion (inventory g) ->
                use_health_potion g = Some (g, [st_error_no_potion])).
  { intros H. unfold use_health_potion.
    apply list_in_false in H. rewrite H. reflexivity. }
  assert (Hyes : In health_potion (inventory g) ->
     exists l1 l2,
       inventory g = l1 ++ health_potion :: l2 /\
       ~ In health_potion l1 /\
       use_health_potion g =
         Some (mk_game (Z.min (health g + 30) 100) (l1 ++ l2)
                 (choices_made g) (found_item g),
               [st_success_potion])).
  { intros H. unfold use_health_potion.
    destruct (list_remove_In _ _ H) as (l1 & l2 & Hi & Hn & Hr).
    apply list_in_In in H. rewrite H.
    cbn [inventory health set_health]. rewrite Hr.
    exists l1, l2. repeat split; assumption. }
  split; [split|split]; try assumption.
  - intros (g' & Hg') Hin. destruct (Hyes Hin) as (l1 & l2 & _ & _ & Hs).
    rewrite Hs in Hg'. discriminate.
  - intros H. exists g. now apply Hno.
Qed.

(** [use_health_potion] on an inventory holding two potions. *)
Example use_health_potion_two_potions :
  use_health_potion (mk_game 80 [lit "sword"; health_potion; health_potion] 3 None) =
    Some (mk_game 100 [lit "sword"; health_potion] 3 None, [st_success_potion]).
Proof. vm_compute. reflexivity. Qed.

(** C4 on an inventory holding two potions, and on one holding none. *)
Lemma C4_use_health_potion_witness :
  (In health_potion [lit "sword"; health_potion; health_potion] /\
   exists l1 l2,
     [lit "sword"; health_potion; health_potion] = l1 ++ health_potion :: l2 /\
     ~ In health_potion l1 /\
     use_health_potion (mk_game 80 [lit "sword"; health_potion; health_potion] 3 None) =
       Some (mk_game (Z.min (80 + 30) 100) (l1 ++ l2) 3 None, [st_success_potion])) /\
  (~ In health_potion [lit "sword"] /\
   use_health_potion (mk_game 40 [lit "sword"] 3 None) =
     Some (mk_game 40 [lit "sword"] 3 None, [st_error_no_potion])).
Proof.
  split; split.
  - right. left. reflexivity.
  - apply (C4_use_health_potion
             (mk_game 80 [lit "sword"; health_potion; health_potion] 3 None)).
    right. left. reflexivity.
  - vm_compute. intros [H | H]; [discriminate | exact H].
  - apply (C4_use_health_potion (mk_game 40 [lit "sword"] 3 None)).
    vm_compute. intros [H | H]; [discriminate | exact H].
Defined.

(** ** C6: add_item_to_inventory *)

(** C6, as the code has it.  When [found_item] is set (to a non-empty
    identifier) and not yet in the inventory, [add_item_to_inventory]
    appends it to the inventory and clears [found_item]; [choices_made] and
    health stay as they were.  When [found_item] is empty, or names an item
    already in the inventory, nothing changes and nothing is shown. *)
Theorem C6_add_item_to_inventory (g : GameState) :
  (found_item g = None -> add_item_to_inventory g = (g, [])) /\
  (forall item,
     found_item g = Some item -> item <> [] -> ~ In item (inventory g) ->
     add_item_to_inventory g =
       (mk_game (health g) (inventory g ++ [item]) (choices_made g) None,
        [st_success_added item])) /\
  (forall item,
     found_item g = Some item -> In item (inventory g) ->
     add_item_to_inventory g = (g, [])).
Proof.
  unfold add_item_to_inventory. repeat split.
  - intros ->. reflexivity.
  - intros item -> Hne Hnin. apply list_in_false in Hnin. rewrite Hnin.
    destruct item as [|c item]; [contradiction|]. reflexivity.
  - intros item -> Hin. apply list_in_In in Hin. rewrite Hin.
    rewrite andb_false_r. reflexivity.
Qed.

(** C6 on a pending potion. *)
Lemma C6_add_item_to_inventory_witness :
  add_item_to_inventory (mk_game 85 [lit "key"] 5 (Some (lit "potion"))) =
    (mk_game 85 [lit "key"; lit "potion"] 5 None, [st_success_added (lit "potion")]) /\
  add_item_to_inventory (mk_game 85 [lit "key"] 5 None) =
    (mk_game 85 [lit "key"] 5 None, []).
Proof.
  split.
  - apply (C6_add_item_to_inventory (mk_game 85 [lit "key"] 5 (Some (lit "potion")))).
    + reflexivity.
    + discriminate.
    + vm_compute. intros [H | H]; [discriminate | exact H].
  - apply (C6_add_item_to_inventory (mk_game 85 [lit "key"] 5 None)). reflexivity.
Defined.

(** Picking up the pending potion leaves [choices_made] at 5, where the
    specification of confirmPickup has 6. *)
Lemma C6_counterexample :
  let g := mk_game 85 [] 5 (Some (lit "potion")) in
  inventory (fst (add_item_to_inventory g)) = [lit "potion"] /\
  found_item (fst (add_item_to_inventory g)) = None /\
  choices_made (fst (add_item_to_inventory g)) = 5 /\
  choices_made (fst (add_item_to_inventory g)) <> choices_made g + 1.
Proof.
  vm_compute. repeat split; try reflexivity. discriminate.
Qed.

(** ** One run of the script, case by case *)

Lemma initialize_store (s : session) : initialize_session_state (store s) = s.
Proof. destruct s; reflexivity. Qed.

Lemma ensure_intro_game (s : session) : game_state (ensure_intro s) = game_state s.
Proof. unfold ensure_intro. destruct (conversation_history s); reflexivity. Qed.

Lemma ensure_intro_nonempty (s : session) :
  conversation_history s <> [] -> ensure_intro s = s.
Proof.
  unfold ensure_intro. destruct (conversation_history s); [contradiction | reflexivity].
Qed.

Lemma ensure_intro_history (s : session) : conversation_history (ensure_intro s) <> [].
Proof.
  unfold ensure_intro. destruct (conversation_history s) eqn:E; cbn.
  - discriminate.
  - rewrite E. discriminate.
Qed.

(** The script never ends in an uncaught exception. *)
Lemma main_total (lower : str -> str) (ss : session_state) (w : widget_input)
    (reply : option str) :
  exists r, main lower ss w reply = Some r.
Proof.
  unfold main. destruct (button_restart_game w); [eauto|].
  destruct (health _ <=? 0); [destruct (button_start_new_game w); eauto|].
  destruct (if (found_item_truthy _ && button_pick_up w)%bool then _ else _) as [g1 out1].
  destruct (list_in health_potion (inventory g1) && button_use_health_potion w)%bool.
  - destruct (use_health_potion_total g1) as ([g2 out2] & ->).
    destruct (user_input w); [destruct (play_turn _ _ _ _)|]; eauto.
  - destruct (user_input w); [destruct (play_turn _ _ _ _)|]; eauto.
Qed.

Lemma main_restart_game (lower : str -> str) (ss : session_state) (reply : option str) :
  main lower ss click_restart_game reply = Some (session_clear, [], true).
Proof. reflexivity. Qed.

(** A run in which no widget fires only draws, and does not ask for a rerun. *)
Lemma main_no_input (lower : str -> str) (ss : session_state) (reply : option str) :
  main lower ss no_input reply =
  Some (store (ensure_intro (initialize_session_state ss)),
        (if health (game_state (ensure_intro (initialize_session_state ss))) <=? 0
         then [st_error_game_over] else []),
        false).
Proof.
  unfold main. cbn [button_restart_game button_start_new_game button_pick_up
                    button_use_health_potion user_input].
  destruct (health _ <=? 0); [reflexivity|].
  rewrite !andb_false_r. destruct (ensure_intro _); reflexivity.
Qed.

(** A submitted action while the player is alive plays one turn. *)
Lemma main_chat_input (lower : str -> str) (ss : session_state) (text : str)
    (reply : option str) :
  let s := ensure_intro (initialize_session_state ss) in
  0 < health (game_state s) -> text <> [] ->
  main lower ss (chat_input text) reply =
  Some (store (fst (play_turn lower text reply s)),
        snd (play_turn lower text reply s), true).
Proof.
  intros s Hh Ht. unfold main. fold s.
  cbn [button_restart_game button_start_new_game button_pick_up
       button_use_health_potion user_input].
  destruct (health (game_state s) <=? 0) eqn:E; [apply Z.leb_le in E; lia|].
  rewrite !andb_false_r.
  destruct text as [|c text]; [contradiction|]. cbn [truthy].
  replace (mk_session (conversation_history s) (messages s) (game_state s)) with s
    by (destruct s; reflexivity).
  destruct (play_turn lower (c :: text) reply s) as [s3 out3]. reflexivity.
Qed.

Lemma play_turn_history (lower : str -> str) (text : str) (reply : option str)
    (s : session) :
  conversation_history (fst (play_turn lower text reply s)) =
    conversation_history s ++
      [mk_message role_user text;
       mk_message role_model (fst (generate_story_response reply))] /\
  messages (fst (play_turn lower text reply s)) =
    messages s ++
      [mk_message role_user text;
       mk_message role_model (fst (generate_story_response reply))] /\
  game_state (fst (play_turn lower text reply s)) =
    fst (update_game_state lower (fst (generate_story_response reply))
           (set_choices_made (choices_made (game_state s) + 1) (game_state s))) /\
  snd (play_turn lower text reply s) =
    snd (generate_story_response reply) ++
    snd (update_game_state lower (fst (generate_story_response reply))
           (set_choices_made (choices_made (game_state s) + 1) (game_state s))).
Proof.
  unfold play_turn. destruct (generate_story_response reply) as [response out_gen].
  cbn [fst snd].
  destruct (update_game_state lower response _) as [g' out_upd].
  cbn [fst snd conversation_history messages game_state].
  rewrite <- !app_assoc. repeat split; reflexivity.
Qed.

(** The turn and the rerun that follows it. *)
Lemma run_chat_input (lower : str -> str) (ss : session_state) (text : str)
    (reply : option str) :
  let s := ensure_intro (initialize_session_state ss) in
  let s' := fst (play_turn lower text reply s) in
  0 < health (game_state s) -> text <> [] ->
  run lower ss (chat_input text) reply =
  Some (store s',
        snd (play_turn lower text reply s) ++
        (if health (game_state s') <=? 0 then [st_error_game_over] else [])).
Proof.
  intros s s' Hh Ht. unfold run.
  rewrite (main_chat_input lower ss text reply Hh Ht). fold s. fold s'.
  rewrite main_no_input, initialize_store, ensure_intro_nonempty; [reflexivity|].
  subst s'. destruct (play_turn_history lower text reply s) as (-> & _).
  intros H. apply app_eq_nil in H as [_ H]. discriminate.
Qed.

(** Nothing in a quiet text: the state comes back as it was. *)
Lemma update_game_state_quiet (lower : str -> str) (text : str) (g : GameState) :
  danger_hits (lower text) = [] -> item_hits (lower text) = [] ->
  0 <= health g ->
  update_game_state lower text g = (g, []).
Proof.
  intros Hd Hi Hh. rewrite update_game_state_closed, Hd, Hi.
  cbn [length map last]. destruct g as [h inv c f].
  cbn [health inventory choices_made found_item] in *.
  replace (h - 15 * Z.of_nat 0) with h by lia.
  replace (c + Z.of_nat 0) with c by lia.
  rewrite Z.max_l by lia. reflexivity.
Qed.

(** ** C9: the fallback text *)

Lemma fallback_text_hits (lower : str -> str) :
  lower_on_ascii lower ->
  danger_hits (lower fallback_text) = [] /\ item_hits (lower fallback_text) = [].
Proof.
  intros H. rewrite H by (vm_compute; reflexivity).
  split; vm_compute; reflexivity.
Qed.

(** C9.  In the case-normalized fallback text no danger keyword occurs and
    no marker-wrapped catalog key occurs, so [update_game_state] on it
    returns the state as it was (health, inventory, found_item and
    choices_made) and shows nothing.  Health is taken non-negative, as the
    clamp of every earlier turn leaves it. *)
Theorem C9_fallback_text_quiet (lower : str -> str) (g : GameState) :
  lower_on_ascii lower -> 0 <= health g ->
  (forall k, In k dangerous_actions -> ~ occurs k (lower fallback_text)) /\
  (forall k, In k catalog_keys -> ~ occurs (marked k) (lower fallback_text)) /\
  update_game_state lower fallback_text g = (g, []).
Proof.
  intros Hl Hh. destruct (fallback_text_hits lower Hl) as [Hd Hi].
  repeat split.
  - intros k Hk Ho.
    assert (Hin : In k (danger_hits (lower fallback_text)))
      by (apply danger_hits_spec; auto).
    rewrite Hd in Hin. contradiction.
  - intros k Hk Ho.
    assert (Hin : In k (item_hits (lower fallback_text)))
      by (apply item_hits_spec; auto).
    rewrite Hi in Hin. contradiction.
  - now apply update_game_state_quiet.
Qed.

(** C9 on a state in the middle of a game. *)
Lemma C9_fallback_text_quiet_witness :
  update_game_state ascii_lower fallback_text
    (mk_game 55 [lit "key"] 7 (Some (lit "map"))) =
  (mk_game 55 [lit "key"] 7 (Some (lit "map")), []).
Proof.
  apply (C9_fallback_text_quiet ascii_lower
           (mk_game 55 [lit "key"] 7 (Some (lit "map")))).
  - exact ascii_lower_on_ascii.
  - cbn. lia.
Defined.

(** ** C2: a turn in which the generator fails *)

(** C2, as the code has it.  When the generator call fails during a turn
    (the player alive, the action non-empty), the player's action stays in
    the log and a narrator turn carrying the fixed fallback text is appended
    after it, in [conversation_history] and in [messages] alike; health,
    inventory and found_item are unchanged and choices_made has only the
    increment of the player's action; the error is shown ([st.error]); and
    the session goes on: the next submitted action is played as a turn. *)
Theorem C2_generation_failure (lower : str -> str) (ss : session_state) (text : str) :
  lower_on_ascii lower ->
  let s := ensure_intro (initialize_session_state ss) in
  let turns := [mk_message role_user text; mk_message role_model fallback_text] in
  let s' := mk_session (conversation_history s ++ turns) (messages s ++ turns)
              (set_choices_made (choices_made (game_state s) + 1) (game_state s)) in
  0 < health (game_state s) -> text <> [] ->
  main lower ss (chat_input text) None = Some (store s', [st_error_generating], true) /\
  run lower ss (chat_input text) None = Some (store s', [st_error_generating]) /\
  (forall text2 reply2, text2 <> [] ->
   exists s2 out2,
     run lower (store s') (chat_input text2) reply2 = Some (store s2, out2) /\
     conversation_history s2 =
       conversation_history s' ++
         [mk_message role_user text2;
          mk_message role_model (fst (generate_story_response reply2))]).
Proof.
  intros Hl s turns s' Hh Ht.
  assert (Hplay : play_turn lower text None s = (s', [st_error_generating])).
  { unfold play_turn. cbn [generate_story_response].
    destruct (fallback_text_hits lower Hl) as [Hd Hi].
    rewrite (update_game_state_quiet lower fallback_text _ Hd Hi)
      by (cbn [health set_choices_made]; lia).
    subst s' turns. rewrite <- !app_assoc. reflexivity. }
  assert (Hs' : ensure_intro (initialize_session_state (store s')) = s').
  { rewrite initialize_store. apply ensure_intro_nonempty.
    subst s' turns. cbn [conversation_history]. intros H.
    apply app_eq_nil in H as [_ H]. discriminate. }
  assert (Halive : 0 < health (game_state s')) by (subst s'; cbn; lia).
  split; [|split].
  - rewrite (main_chat_input lower ss text None Hh Ht). fold s.
    rewrite Hplay. reflexivity.
  - rewrite (run_chat_input lower ss text None Hh Ht). fold s.
    rewrite Hplay. cbn [fst snd].
    destruct (health (game_state s') <=? 0) eqn:E; [apply Z.leb_le in E; lia|].
    reflexivity.
  - intros text2 reply2 Ht2.
    pose proof (run_chat_input lower (store s') text2 reply2) as Hr.
    cbv zeta in Hr. rewrite Hs' in Hr. specialize (Hr Halive Ht2).
    eexists _, _. split; [exact Hr|].
    apply (play_turn_history lower text2 reply2 s').
Qed.

(** C2 on the first turn of a fresh session. *)
Lemma C2_generation_failure_witness :
  run ascii_lower session_clear (chat_input (lit "open the door")) None =
  Some (store (mk_session
                 [intro_message; mk_message role_user (lit "open the door");
                  mk_message role_model fallback_text]
                 [intro_message; mk_message role_user (lit "open the door");
                  mk_message role_model fallback_text]
                 (mk_game 100 [] 1 None)),
        [st_error_generating]).
Proof.
  apply (C2_generation_failure ascii_lower session_clear (lit "open the door")).
  - exact ascii_lower_on_ascii.
  - cbn. lia.
  - discriminate.
Defined.

(** After a failed generator call the log has grown by two turns, the last
    one a narrator turn, where the specification has no narrator turn
    appended. *)
Lemma C2_counterexample :
  option_map (fun r => ss_conversation_history (fst r))
    (run ascii_lower
       (store (mk_session [intro_message] [intro_message] initial_game_state))
       (chat_input (lit "open the door")) None) =
  Some (Some [intro_message;
              mk_message role_user (lit "open the door");
              mk_message role_model fallback_text]).
Proof. reflexivity. Qed.

(** ** C8: restart *)

(** C8.  From any session, pressing "Restart Game" clears the session and
    reruns the script, which leaves health 100, an empty inventory,
    choices_made 0 and no found item, and a log (both [conversation_history]
    and [messages]) holding the introduction alone, a turn of role "model". *)
Theorem C8_restart_game (lower : str -> str) (ss : session_state)
    (reply : option str) :
  main lower ss click_restart_game reply = Some (session_clear, [], true) /\
  run lower ss click_restart_game reply =
    Some (store (mk_session [intro_message] [intro_message] initial_game_state), []) /\
  initial_game_state = mk_game 100 [] 0 None /\
  msg_role intro_message = role_model.
Proof. repeat split. Qed.

(** The button of the game-over screen does the same. *)
Lemma run_start_new_game (lower : str -> str) (ss : session_state)
    (reply : option str) :
  health (game_state (initialize_session_state ss)) <= 0 ->
  run lower ss click_start_new_game reply =
    Some (store (mk_session [intro_message] [intro_message] initial_game_state),
          [st_error_game_over]).
Proof.
  intros H. unfold run, main.
  cbn [button_restart_game button_start_new_game].
  rewrite ensure_intro_game. apply Z.leb_le in H. rewrite H. reflexivity.
Qed.

(** ** C7: the explore-and-potion turn *)

Lemma filter_none {A : Type} (p : A -> bool) (l : list A) :
  (forall k, In k l -> p k = false) -> filter p l = [].
Proof.
  induction l as [|a l IH]; intros H; cbn [filter]; [reflexivity|].
  rewrite (H a) by now left. apply IH. intros k Hk. apply H. now right.
Qed.

Lemma filter_single {A : Type} (p : A -> bool) (l : list A) (x : A) :
  NoDup l -> In x l -> p x = true ->
  (forall k, In k l -> k <> x -> p k = false) ->
  filter p l = [x].
Proof.
  induction l as [|a l IH]; [contradiction|].
  intros Hnd [-> | Hin] Hx Hrest; inversion Hnd as [|? ? Hna Hnd']; subst;
    cbn [filter].
  - rewrite Hx. f_equal.
    apply filter_none.
    intros k Hk. apply Hrest; [now right|]. intros ->. contradiction.
  - rewrite (Hrest a); [|now left | intros ->; contradiction].
    apply IH; auto. intros k Hk. apply Hrest. now right.
Qed.

(** C7.  From health 100 and choices_made c, the player submits
    "explore the path" and the generator returns a text in whose
    case-normalized form "explore" is the one danger keyword that occurs and
    **potion** the one marked catalog entry: after the turn (and the rerun
    that ends it) health is 85, found_item is "potion" and choices_made is
    c + 2; the inventory is as before. *)
Theorem C7_explore_turn (lower : str -> str) (ss : session_state) (text : str)
    (c : Z) :
  let g := game_state (initialize_session_state ss) in
  health g = 100 -> choices_made g = c ->
  occurs (lit "explore") (lower text) ->
  (forall k, In k dangerous_actions -> k <> lit "explore" -> ~ occurs k (lower text)) ->
  occurs (lit "**potion**") (lower text) ->
  (forall k, In k catalog_keys -> k <> lit "potion" -> ~ occurs (marked k) (lower text)) ->
  exists s',
    run lower ss (chat_input (lit "explore the path")) (Some text) =
      Some (store s', [st_write_found (lit "potion")]) /\
    game_state s' = mk_game 85 (inventory g) (c + 2) (Some (lit "potion")).
Proof.
  intros g Hh Hc He Hothers Hp Hitems.
  assert (Hd : danger_hits (lower text) = [lit "explore"]).
  { apply filter_single.
    - apply dangerous_actions_NoDup.
    - vm_compute. tauto.
    - now apply str_in_occurs.
    - intros k Hk Hne. apply str_in_false. now apply Hothers. }
  assert (Hi : item_hits (lower text) = [lit "potion"]).
  { apply filter_single.
    - apply catalog_keys_NoDup.
    - vm_compute. tauto.
    - now apply str_in_occurs.
    - intros k Hk Hne. apply str_in_false. now apply Hitems. }
  pose proof (run_chat_input lower ss (lit "explore the path") (Some text)) as Hr.
  cbv zeta in Hr. rewrite ensure_intro_game in Hr. fold g in Hr.
  specialize (Hr ltac:(lia) ltac:(discriminate)).
  destruct (play_turn_history lower (lit "explore the path") (Some text)
              (ensure_intro (initialize_session_state ss))) as (_ & _ & Hg & Hout).
  rewrite ensure_intro_game in Hg. fold g in Hg.
  cbn [generate_story_response fst snd] in Hg, Hout.
  rewrite update_game_state_closed, Hd, Hi in Hg, Hout.
  cbn [fst snd length map last health inventory choices_made found_item
       set_choices_made app] in Hg, Hout.
  rewrite Hh, Hc in Hg.
  replace (Z.max (100 - 15 * Z.of_nat 1) 0) with 85 in Hg by lia.
  replace (c + 1 + Z.of_nat 1) with (c + 2) in Hg by lia.
  rewrite Hout, Hg in Hr. cbn [health] in Hr.
  eexists. split; [exact Hr | exact Hg].
Qed.

(** C7 from a session with three choices made so far. *)
Lemma C7_explore_turn_witness :
  exists s',
    run ascii_lower
      (store (mk_session [intro_message] [intro_message] (mk_game 100 [lit "key"] 3 None)))
      (chat_input (lit "explore the path"))
      (Some (lit "You Explore the path. Between the ferns glints a **Potion**."))
    = Some (store s', [st_write_found (lit "potion")]) /\
    game_state s' = mk_game 85 [lit "key"] (3 + 2) (Some (lit "potion")).
Proof.
  apply (C7_explore_turn ascii_lower
           (store (mk_session [intro_message] [intro_message]
                     (mk_game 100 [lit "key"] 3 None)))
           (lit "You Explore the path. Between the ferns glints a **Potion**.") 3).
  - reflexivity.
  - reflexivity.
  - apply str_in_occurs. vm_compute. reflexivity.
  - intros k Hk Hne. apply str_in_false.
    each_literal Hk Hne ltac:(vm_compute; reflexivity).
  - apply str_in_occurs. vm_compute. reflexivity.
  - intros k Hk Hne. apply str_in_false.
    each_literal Hk Hne ltac:(vm_compute; reflexivity).
Defined.

(** ** C10: the marker of health_potion *)

Lemma last_some_cases {A : Type} (l : list A) (d : option A) (x : A) :
  last (map Some l) d = Some x -> (l = [] /\ d = Some x) \/ In x l.
Proof.
  induction l as [|a l IH] using rev_ind; cbn [map last]; [now left|].
  rewrite map_app. cbn [map]. rewrite last_last. intros H. injection H as ->.
  right. apply in_or_app. right. now left.
Qed.

(** health_potion closes the catalog. *)
Lemma item_hits_health_potion (t : str) :
  item_hits t =
  filter (fun item => str_in (marked item) t)
    [lit "potion"; lit "sword"; lit "key"; lit "map"; lit "shield"; lit "amulet"]
  ++ (if str_in (marked health_potion) t then [health_potion] else []).
Proof.
  unfold item_hits.
  change catalog_keys with
    ([lit "potion"; lit "sword"; lit "key"; lit "map"; lit "shield"; lit "amulet"]
     ++ [health_potion]).
  rewrite filter_app. reflexivity.
Qed.

(** C10.  The item scan of [update_game_state] detects each catalog key by
    the literal form built from the key between two pairs of asterisks, in
    the case-normalized text: a notice is written for a key exactly when the
    key is in the catalog and that form occurs, the notices come in catalog
    order, choices_made grows by their number, and [found_item] after the
    scan is either a key so detected or, when nothing was detected, what it
    was before.  For health_potion the form is **health_potion** with the
    underscore: [found_item] becomes health_potion whenever it occurs; when
    it does not occur, [found_item] is health_potion after the scan only if
    it was before and the scan found nothing at all.  In particular the
    catalog's own discovery phrase, "You found a **health potion**!" (with a
    space), changes neither found_item nor choices_made and writes no
    notice. *)
Theorem C10_health_potion_marker (lower : str -> str) (text : str) (g : GameState) :
  let r := update_game_state lower text g in
  let detected := fun k => In k catalog_keys /\
                           occurs (lit "**" ++ k ++ lit "**") (lower text) in
  (forall k, In (st_write_found k) (snd r) <-> detected k) /\
  snd r = map st_write_found
            (filter (fun k => str_in (lit "**" ++ k ++ lit "**") (lower text))
               (map fst inventory_items)) /\
  choices_made (fst r) = choices_made g + Z.of_nat (length (snd r)) /\
  (forall k, found_item (fst r) = Some k ->
             detected k \/ (found_item g = Some k /\ snd r = [])) /\
  ((exists k, detected k) -> exists k, found_item (fst r) = Some k /\ detected k) /\
  (occurs (lit "**health_potion**") (lower text) ->
   found_item (fst r) = Some health_potion) /\
  (~ occurs (lit "**health_potion**") (lower text) ->
   found_item (fst r) = Some health_potion ->
   found_item g = Some health_potion /\ snd r = []) /\
  (lower_on_ascii lower ->
   let r0 := update_game_state lower (lit "You found a **health potion**!") g in
   found_item (fst r0) = found_item g /\
   choices_made (fst r0) = choices_made g /\
   snd r0 = []).
Proof.
  intros r detected. subst r.
  assert (Hdet : forall k, In k (item_hits (lower text)) <-> detected k).
  { intros k. apply item_hits_spec. }
  rewrite update_game_state_closed.
  cbn [fst snd found_item choices_made].
  change (lit "**health_potion**") with (marked health_potion).
  split; [|split; [|split; [|split; [|split; [|split; [|split]]]]]].
  - intros k. rewrite <- Hdet. rewrite in_map_iff. split.
    + intros (x & Hx & Hin). injection Hx as ->. exact Hin.
    + intros Hin. exists k. split; [reflexivity | exact Hin].
  - reflexivity.
  - rewrite length_map. reflexivity.
  - intros k Hk. apply last_some_cases in Hk as [[He Hf] | Hin].
    + right. rewrite He. split; [exact Hf | reflexivity].
    + left. now apply Hdet.
  - intros (k & Hk). apply Hdet in Hk.
    destruct (item_hits (lower text)) as [|x hits] using rev_ind;
      [contradiction|].
    exists x. rewrite map_app. cbn [map]. rewrite last_last.
    split; [reflexivity|]. apply Hdet. apply in_or_app. right. now left.
  - intros Ho. apply str_in_occurs in Ho.
    rewrite item_hits_health_potion, Ho, map_app. cbn [map]. apply last_last.
  - intros Hno Hf. apply str_in_false in Hno.
    rewrite item_hits_health_potion, Hno, app_nil_r in Hf |- *.
    apply last_some_cases in Hf as [[He Hf] | Hin].
    + rewrite He. split; [assumption | reflexivity].
    + apply filter_In in Hin as [Hin _]. exfalso. vm_compute in Hin.
      repeat (destruct Hin as [Hin | Hin]; [discriminate|]). exact Hin.
  - intros Hl. cbv zeta. rewrite update_game_state_closed.
    cbn [fst snd found_item choices_made].
    rewrite Hl by (vm_compute; reflexivity).
    replace (item_hits (ascii_lower (lit "You found a **health potion**!")))
      with (@nil str) by (vm_compute; reflexivity).
    cbn [map last length]. repeat split. lia.
Qed.

(** C10 on the discovery phrase of the catalog, on the underscore form, and
    on a marked sword. *)
Lemma C10_health_potion_marker_witness :
  (found_item (fst (update_game_state ascii_lower
                      (lit "You found a **health potion**!") initial_game_state))
     = found_item initial_game_state /\
   choices_made (fst (update_game_state ascii_lower
                        (lit "You found a **health potion**!") initial_game_state))
     = choices_made initial_game_state /\
   snd (update_game_state ascii_lower
          (lit "You found a **health potion**!") initial_game_state) = []) /\
  found_item (fst (update_game_state ascii_lower
                     (lit "You found a **Health_Potion**!") initial_game_state))
    = Some health_potion /\
  In (st_write_found (lit "sword"))
    (snd (update_game_state ascii_lower
            (lit "A **Sword** leans on the oak.") initial_game_state)).
Proof.
  split; [|split].
  - apply (proj2 (proj2 (proj2 (proj2 (proj2 (proj2 (proj2
             (C10_health_potion_marker ascii_lower
                (lit "You found a **health potion**!") initial_game_state)))))))).
    exact ascii_lower_on_ascii.
  - apply (proj1 (proj2 (proj2 (proj2 (proj2 (proj2
             (C10_health_potion_marker ascii_lower
                (lit "You found a **Health_Potion**!") initial_game_state))))))).
    apply str_in_occurs. vm_compute. reflexivity.
  - apply (proj1 (C10_health_potion_marker ascii_lower
                    (lit "A **Sword** leans on the oak.") initial_game_state)).
    split.
    + vm_compute. auto.
    + apply str_in_occurs. vm_compute. reflexivity.
Defined.

(** ** C5: found_item and the inventory *)

Lemma initial_game_inv : game_inv initial_game_state.
Proof. split; [exact I | split; [constructor | cbn; lia]]. Qed.

Lemma update_game_state_inv (lower : str -> str) (text : str) (g : GameState) :
  game_inv g -> game_inv (fst (update_game_state lower text g)).
Proof.
  intros (Hf & Hn & Hh). rewrite update_game_state_closed.
  split; [|split; [exact Hn | cbn [fst health]; lia]].
  unfold found_known in *. cbn [fst found_item].
  destruct (last (map Some (item_hits (lower text))) (found_item g)) as [x|] eqn:E;
    [|exact I].
  apply last_some_cases in E as [[_ E] | Hin].
  - now rewrite E in Hf.
  - now apply item_hits_spec in Hin.
Qed.

Lemma add_item_to_inventory_inv (g : GameState) :
  game_inv g -> game_inv (fst (add_item_to_inventory g)).
Proof.
  intros (Hf & Hn & Hh). unfold add_item_to_inventory.
  destruct (found_item g) as [item|] eqn:E; [|now repeat split].
  destruct (truthy item && negb (list_in item (inventory g)))%bool eqn:Ec;
    [|now repeat split].
  apply andb_true_iff in Ec as [_ Ec]. apply negb_true_iff, list_in_false in Ec.
  split; [exact I|]. split; [|exact Hh].
  cbn [fst inventory set_found_item set_inventory].
  apply NoDup_app; [assumption | repeat constructor; intros [] | ].
  intros x Hx [<- | []]. contradiction.
Qed.

Lemma use_health_potion_inv (g g' : GameState) (out : list ui_event) :
  game_inv g -> use_health_potion g = Some (g', out) -> game_inv g'.
Proof.
  intros (Hf & Hn & Hh) H. unfold use_health_potion in H.
  destruct (list_in health_potion (inventory g)) eqn:E.
  - apply list_in_In in E.
    destruct (list_remove_In _ _ E) as (l1 & l2 & Hi & _ & Hr).
    cbn [inventory set_health] in H. rewrite Hr in H. injection H as <- _.
    split; [exact Hf|]. split.
    + cbn [inventory set_inventory].
      rewrite Hi in Hn. now apply NoDup_remove_1 in Hn.
    + cbn [health set_inventory set_health]. lia.
  - injection H as <- _. now repeat split.
Qed.

Lemma play_turn_inv (lower : str -> str) (text : str) (reply : option str)
    (s : session) :
  game_inv (game_state s) -> game_inv (game_state (fst (play_turn lower text reply s))).
Proof.
  intros H. destruct (play_turn_history lower text reply s) as (_ & _ & -> & _).
  apply update_game_state_inv. exact H.
Qed.

Lemma main_inv (lower : str -> str) (ss ss' : session_state) (w : widget_input)
    (reply : option str) (out : list ui_event) (again : bool) :
  session_inv ss -> main lower ss w reply = Some (ss', out, again) -> session_inv ss'.
Proof.
  intros Hinv H.
  assert (H0 : game_inv (game_state (ensure_intro (initialize_session_state ss)))).
  { rewrite ensure_intro_game. unfold session_inv in Hinv.
    unfold initialize_session_state. cbn [game_state].
    destruct (ss_game_state ss); [exact Hinv | exact initial_game_inv]. }
  unfold main in H. set (s := ensure_intro (initialize_session_state ss)) in *.
  destruct (button_restart_game w); [injection H as <- _ _; exact I|].
  destruct (health (game_state s) <=? 0).
  { destruct (button_start_new_game w); injection H as <- _ _; [exact I | exact H0]. }
  destruct (if (found_item_truthy (game_state s) && button_pick_up w)%bool
            then add_item_to_inventory (game_state s)
            else (game_state s, [])) as [g1 out1] eqn:E1.
  assert (H1 : game_inv g1).
  { destruct (found_item_truthy (game_state s) && button_pick_up w)%bool.
    - replace g1 with (fst (add_item_to_inventory (game_state s))) by now rewrite E1.
      now apply add_item_to_inventory_inv.
    - injection E1 as <- _. exact H0. }
  destruct (if (list_in health_potion (inventory g1) && button_use_health_potion w)%bool
            then use_health_potion g1 else Some (g1, [])) as [[g2 out2]|] eqn:E2;
    [|discriminate].
  assert (H2 : game_inv g2).
  { destruct (list_in health_potion (inventory g1) && button_use_health_potion w)%bool.
    - eapply use_health_potion_inv; eauto.
    - injection E2 as <- _. exact H1. }
  destruct (user_input w) as [text|].
  - destruct (play_turn lower text reply
                (mk_session (conversation_history s) (messages s) g2))
      as [s3 out3] eqn:E3.
    injection H as <- _ _. unfold session_inv, store. cbn [ss_game_state].
    replace s3 with (fst (play_turn lower text reply
                     (mk_session (conversation_history s) (messages s) g2)))
      by now rewrite E3.
    apply play_turn_inv. exact H2.
  - injection H as <- _ _. exact H2.
Qed.

Lemma run_inv (lower : str -> str) (ss ss' : session_state) (w : widget_input)
    (reply : option str) (out : list ui_event) :
  session_inv ss -> run lower ss w reply = Some (ss', out) -> session_inv ss'.
Proof.
  intros Hinv H. unfold run in H.
  destruct (main lower ss w reply) as [[[ss1 out1] again]|] eqn:E1; [|discriminate].
  pose proof (main_inv _ _ _ _ _ _ _ Hinv E1) as H1.
  destruct again.
  - destruct (main lower ss1 no_input None) as [[[ss2 out2] again2]|] eqn:E2;
      [|discriminate].
    injection H as <- _. eapply main_inv; eauto.
  - injection H as <- _. exact H1.
Qed.

(** C5, as the code has it.  The item scan sets [found_item] from the text
    alone, whether or not the item is already in the inventory, and leaves
    the inventory as it is.  Every operation preserves that [found_item], if
    set, is a catalog key, that the inventory holds no identifier twice and
    that health lies in [0,100]: [update_game_state], [add_item_to_inventory],
    [use_health_potion] and a whole run of the script, which always ends.  The test against the inventory is made at
    pickup: [add_item_to_inventory] leaves the state alone when the pending
    item is already in the inventory. *)
Theorem C5_found_item_invariant :
  (forall lower text g,
     found_item (fst (update_game_state lower text g)) =
       last (map Some (item_hits (lower text))) (found_item g) /\
     inventory (fst (update_game_state lower text g)) = inventory g) /\
  (forall lower text g,
     game_inv g -> game_inv (fst (update_game_state lower text g))) /\
  (forall g, game_inv g -> game_inv (fst (add_item_to_inventory g))) /\
  (forall g g' out,
     game_inv g -> use_health_potion g = Some (g', out) -> game_inv g') /\
  (forall lower ss w reply,
     session_inv ss ->
     exists ss' out, run lower ss w reply = Some (ss', out) /\ session_inv ss') /\
  (forall g item,
     found_item g = Some item -> In item (inventory g) ->
     add_item_to_inventory g = (g, [])).
Proof.
  split; [|split; [|split; [|split; [|split]]]].
  - intros lower text g. rewrite update_game_state_closed. split; reflexivity.
  - apply update_game_state_inv.
  - apply add_item_to_inventory_inv.
  - apply use_health_potion_inv.
  - intros lower ss w reply Hinv.
    destruct (run lower ss w reply) as [[ss' out]|] eqn:E.
    + exists ss', out. split; [reflexivity|]. eapply run_inv; eauto.
    + exfalso. unfold run in E.
      destruct (main_total lower ss w reply) as ([[ss1 out1] again] & E1).
      rewrite E1 in E. destruct again; [|discriminate].
      destruct (main_total lower ss1 no_input None) as ([[ss2 out2] again2] & E2).
      rewrite E2 in E. discriminate.
  - intros g item Hf Hin. unfold add_item_to_inventory. rewrite Hf.
    apply list_in_In in Hin. rewrite Hin, andb_false_r. reflexivity.
Qed.

(** C5 on a turn whose text marks a sword already carried. *)
Lemma C5_found_item_invariant_witness :
  game_inv (mk_game 100 [lit "sword"] 2 None) /\
  game_inv (fst (update_game_state ascii_lower (lit "A **sword** rests here.")
                   (mk_game 100 [lit "sword"] 2 None))) /\
  add_item_to_inventory (mk_game 100 [lit "sword"] 3 (Some (lit "sword"))) =
    (mk_game 100 [lit "sword"] 3 (Some (lit "sword")), []).
Proof.
  assert (H : game_inv (mk_game 100 [lit "sword"] 2 None)).
  { split; [exact I|]. split; [repeat constructor; intros [] | cbn; lia]. }
  split; [exact H|]. split.
  - apply (proj1 (proj2 C5_found_item_invariant)). exact H.
  - apply (proj2 (proj2 (proj2 (proj2 (proj2 C5_found_item_invariant))))
             _ (lit "sword")).
    + reflexivity.
    + left. reflexivity.
Defined.

(** With a sword in the inventory and **sword** in the text, the scan sets
    [found_item] to sword all the same: the pending item is in the inventory. *)
Lemma C5_counterexample :
  let g := mk_game 100 [lit "sword"] 2 None in
  let g' := fst (update_game_state ascii_lower (lit "A **sword** rests here.") g) in
  found_item g' = Some (lit "sword") /\
  inventory g' = [lit "sword"] /\
  list_in (lit "sword") (inventory g') = true.
Proof. vm_compute. repeat split. Qed.

(** * Further properties of the script *)

(** ** A run and its rerun always return *)

Lemma run_total (lower : str -> str) (ss : session_state) (w : widget_input)
    (reply : option str) :
  exists r, run lower ss w reply = Some r.
Proof.
  unfold run.
  destruct (main_total lower ss w reply) as ([[ss1 out1] again] & ->).
  destruct again; [|eauto].
  destruct (main_total lower ss1 no_input None) as ([[ss2 out2] again2] & ->).
  eauto.
Qed.

(** ** The defeated state *)

(** X2.  Once health is 0 or below, a run only shows the game-over message:
    apart from the two buttons that start over, no input changes the session;
    a submitted action is dropped (not logged, not counted, the generator not
    consulted) and no rerun is asked for. *)
Theorem X2_defeated_is_terminal (lower : str -> str) (ss : session_state)
    (w : widget_input) (reply : option str) :
  health (game_state (initialize_session_state ss)) <= 0 ->
  w <> click_restart_game -> w <> click_start_new_game ->
  main lower ss w reply =
    Some (store (ensure_intro (initialize_session_state ss)),
          [st_error_game_over], false) /\
  run lower ss w reply =
    Some (store (ensure_intro (initialize_session_state ss)),
          [st_error_game_over]).
Proof.
  intros Hh Hr Hn.
  assert (Hm : main lower ss w reply =
    Some (store (ensure_intro (initialize_session_state ss)),
          [st_error_game_over], false)).
  { unfold main. rewrite ensure_intro_game.
    apply Z.leb_le in Hh. rewrite Hh.
    destruct w; try reflexivity; contradiction. }
  split; [exact Hm|]. unfold run. rewrite Hm. reflexivity.
Qed.

(** X2 on a submitted action after the player has perished. *)
Lemma X2_defeated_is_terminal_witness :
  run ascii_lower
    (store (mk_session [intro_message] [intro_message] (mk_game 0 [] 4 None)))
    (chat_input (lit "run away")) (Some (lit "You escape.")) =
  Some (store (mk_session [intro_message] [intro_message] (mk_game 0 [] 4 None)),
        [st_error_game_over]).
Proof.
  apply (X2_defeated_is_terminal ascii_lower
           (store (mk_session [intro_message] [intro_message] (mk_game 0 [] 4 None)))
           (chat_input (lit "run away")) (Some (lit "You escape."))).
  - cbn. lia.
  - discriminate.
  - discriminate.
Defined.

(** ** A run while the player is alive, widget by widget *)

Lemma session_eta (s : session) :
  mk_session (conversation_history s) (messages s) (game_state s) = s.
Proof. destruct s; reflexivity. Qed.

Lemma main_alive_idle (lower : str -> str) (ss : session_state) (w : widget_input)
    (reply : option str) :
  0 < health (game_state (ensure_intro (initialize_session_state ss))) ->
  w = no_input \/ w = click_start_new_game \/ w = chat_input [] ->
  main lower ss w reply =
    Some (store (ensure_intro (initialize_session_state ss)), [], false).
Proof.
  intros Hh Hw. unfold main.
  set (s := ensure_intro (initialize_session_state ss)) in *.
  destruct (health (game_state s) <=? 0) eqn:E; [apply Z.leb_le in E; lia|].
  destruct Hw as [-> | [-> | ->]];
    cbn [button_restart_game button_start_new_game button_pick_up
         button_use_health_potion user_input truthy];
    rewrite !andb_false_r, session_eta; reflexivity.
Qed.

Lemma add_item_to_inventory_not_truthy (g : GameState) :
  found_item_truthy g = false -> add_item_to_inventory g = (g, []).
Proof.
  unfold found_item_truthy, add_item_to_inventory.
  destruct (found_item g) as [item|]; [|reflexivity]. intros ->. reflexivity.
Qed.

Lemma main_alive_pick_up (lower : str -> str) (ss : session_state)
    (reply : option str) :
  let s := ensure_intro (initialize_session_state ss) in
  0 < health (game_state s) ->
  main lower ss click_pick_up reply =
    Some (store (mk_session (conversation_history s) (messages s)
                   (fst (add_item_to_inventory (game_state s)))),
          snd (add_item_to_inventory (game_state s)), false).
Proof.
  intros s Hh. unfold main. fold s.
  destruct (health (game_state s) <=? 0) eqn:E; [apply Z.leb_le in E; lia|].
  cbn [button_restart_game button_pick_up button_use_health_potion user_input].
  rewrite andb_true_r.
  destruct (found_item_truthy (game_state s)) eqn:Ef.
  - destruct (add_item_to_inventory (game_state s)) as [g1 out1].
    rewrite andb_false_r. cbv beta iota zeta. cbn [fst snd].
    rewrite app_nil_r. reflexivity.
  - rewrite (add_item_to_inventory_not_truthy _ Ef).
    rewrite andb_false_r. reflexivity.
Qed.

Lemma main_alive_use_health_potion (lower : str -> str) (ss : session_state)
    (reply : option str) :
  let s := ensure_intro (initialize_session_state ss) in
  0 < health (game_state s) ->
  exists g2 out2,
    (if list_in health_potion (inventory (game_state s))
     then use_health_potion (game_state s)
     else Some (game_state s, [])) = Some (g2, out2) /\
    main lower ss click_use_health_potion reply =
      Some (store (mk_session (conversation_history s) (messages s) g2),
            out2, false).
Proof.
  intros s Hh. unfold main. fold s.
  destruct (health (game_state s) <=? 0) eqn:E; [apply Z.leb_le in E; lia|].
  cbn [button_restart_game button_pick_up button_use_health_potion user_input].
  rewrite andb_false_r, andb_true_r.
  destruct (list_in health_potion (inventory (game_state s))).
  - destruct (use_health_potion_total (game_state s)) as ([g2 out2] & ->).
    exists g2, out2. split; reflexivity.
  - exists (game_state s), []. split; reflexivity.
Qed.

(** The widgets, sorted by what a run does with them. *)
Lemma widget_cases (w : widget_input) :
  w = click_restart_game \/
  (w = no_input \/ w = click_start_new_game \/ w = chat_input []) \/
  w = click_pick_up \/ w = click_use_health_potion \/
  exists text, w = chat_input text /\ text <> [].
Proof.
  destruct w as [| | | | |text]; auto 6.
  destruct text as [|c text]; [auto 6|].
  right. right. right. right. exists (c :: text). split; [reflexivity | discriminate].
Qed.

Lemma main_defeated (lower : str -> str) (ss : session_state) (w : widget_input)
    (reply : option str) :
  health (game_state (ensure_intro (initialize_session_state ss))) <= 0 ->
  button_restart_game w = false ->
  main lower ss w reply =
    if button_start_new_game w
    then Some (session_clear, [st_error_game_over], true)
    else Some (store (ensure_intro (initialize_session_state ss)),
               [st_error_game_over], false).
Proof.
  intros Hh Hr. unfold main. rewrite Hr. apply Z.leb_le in Hh. rewrite Hh.
  reflexivity.
Qed.

(** Every run falls under one of six descriptions. *)
Lemma main_shape (lower : str -> str) (ss ss' : session_state) (w : widget_input)
    (reply : option str) (out : list ui_event) (again : bool) :
  let s := ensure_intro (initialize_session_state ss) in
  let g := game_state s in
  main lower ss w reply = Some (ss', out, again) ->
  (ss' = session_clear /\ again = true /\
   (w = click_restart_game /\ out = [] \/
    w = click_start_new_game /\ out = [st_error_game_over] /\ health g <= 0)) \/
  (health g <= 0 /\ ss' = store s /\ out = [st_error_game_over] /\ again = false) \/
  (0 < health g /\ user_input w = None /\ button_pick_up w = false /\
   ss' = store s /\ out = [] /\ again = false) \/
  (0 < health g /\ w = click_pick_up /\
   ss' = store (mk_session (conversation_history s) (messages s)
                  (fst (add_item_to_inventory g))) /\
   out = snd (add_item_to_inventory g) /\ again = false) \/
  (0 < health g /\ w = click_use_health_potion /\
   exists g2,
     (if list_in health_potion (inventory g) then use_health_potion g
      else Some (g, [])) = Some (g2, out) /\
     ss' = store (mk_session (conversation_history s) (messages s) g2) /\
     again = false) \/
  (0 < health g /\ exists text,
     w = chat_input text /\ text <> [] /\
     ss' = store (fst (play_turn lower text reply s)) /\
     out = snd (play_turn lower text reply s) /\ again = true).
Proof.
  intros s g H.
  destruct (widget_cases w) as [-> | Hw].
  { rewrite main_restart_game in H. injection H as <- <- <-. left. auto. }
  destruct (Z_le_gt_dec (health g) 0) as [Hd | Ha].
  { assert (Hr : button_restart_game w = false).
    { destruct Hw as [[-> | [-> | ->]] | [-> | [-> | (t & -> & _)]]]; reflexivity. }
    rewrite (main_defeated lower ss w reply Hd Hr) in H. fold s in H.
    destruct (button_start_new_game w) eqn:En; injection H as <- <- <-.
    - left. destruct w; try discriminate. auto 6.
    - right. left. auto. }
  assert (Ha' : 0 < health g) by lia.
  destruct Hw as [Hidle | [-> | [-> | (text & -> & Ht)]]].
  - rewrite (main_alive_idle lower ss w reply Ha' Hidle) in H.
    injection H as <- <- <-. right. right. left.
    destruct Hidle as [-> | [-> | ->]]; auto 8.
  - rewrite (main_alive_pick_up lower ss reply Ha') in H.
    injection H as <- <- <-. right. right. right. left. auto.
  - destruct (main_alive_use_health_potion lower ss reply Ha') as (g2 & out2 & Hu & Hm).
    rewrite Hm in H. injection H as <- <- <-.
    right. right. right. right. left. split; [assumption|]. split; [reflexivity|].
    exists g2. auto.
  - rewrite (main_chat_input lower ss text reply Ha' Ht) in H.
    injection H as <- <- <-.
    right. right. right. right. right. split; [assumption|]. exists text. auto.
Qed.

(** What the two button handlers leave alone. *)
Lemma add_item_to_inventory_fields (g : GameState) :
  health (fst (add_item_to_inventory g)) = health g /\
  choices_made (fst (add_item_to_inventory g)) = choices_made g /\
  (snd (add_item_to_inventory g) = [] \/
   exists item, snd (add_item_to_inventory g) = [st_success_added item]).
Proof.
  unfold add_item_to_inventory. destruct (found_item g) as [item|]; [|auto].
  destruct (truthy item && negb (list_in item (inventory g)))%bool; cbn; eauto.
Qed.

Lemma use_health_potion_keeps (g g' : GameState) (out : list ui_event) :
  use_health_potion g = Some (g', out) ->
  choices_made g' = choices_made g /\ found_item g' = found_item g.
Proof.
  unfold use_health_potion. destruct (list_in health_potion (inventory g)).
  - cbn [inventory set_health health].
    destruct (list_remove health_potion (inventory g)); [|discriminate].
    intros H. injection H as <- _. split; reflexivity.
  - intros H. injection H as <- _. split; reflexivity.
Qed.

Lemma use_health_potion_shown (g g' : GameState) (out : list ui_event) :
  list_in health_potion (inventory g) = true ->
  use_health_potion g = Some (g', out) -> out = [st_success_potion].
Proof.
  unfold use_health_potion. intros ->.
  cbn [inventory set_health health].
  destruct (list_remove health_potion (inventory g)); [|discriminate].
  intros H. now injection H as _ <-.
Qed.

(** ** Buttons do not consume a turn *)

(** X3.  Unless text was submitted, a run does not depend on the generator
    at all, and, when it does not start the game over, it asks for no rerun
    and leaves the log (both lists) and choices_made as they were after the
    introduction was ensured: picking up an item or drinking a potion is no
    turn. *)
Theorem X3_buttons_are_no_turn (lower : str -> str) (ss : session_state)
    (w : widget_input) (reply1 reply2 : option str) :
  user_input w = None ->
  let s := ensure_intro (initialize_session_state ss) in
  main lower ss w reply1 = main lower ss w reply2 /\
  exists ss' out again,
    main lower ss w reply1 = Some (ss', out, again) /\
    (ss' = session_clear /\ again = true \/
     again = false /\
     ss_conversation_history ss' = Some (conversation_history s) /\
     ss_messages ss' = Some (messages s) /\
     exists g', ss_game_state ss' = Some g' /\
                choices_made g' = choices_made (game_state s)).
Proof.
  intros Hu s. split.
  { unfold main. rewrite Hu. reflexivity. }
  destruct (main_total lower ss w reply1) as ([[ss' out] again] & Hm).
  exists ss', out, again. split; [exact Hm|].
  destruct (main_shape lower ss ss' w reply1 out again Hm)
    as [(-> & -> & _) | [(_ & -> & _ & ->) | [(_ & _ & _ & -> & _ & ->)
       | [(_ & _ & -> & _ & ->) | [(_ & _ & g2 & Hg2 & -> & ->)
       | (_ & text & -> & Ht & _)]]]]]; subst s.
  - left. auto.
  - right. cbn. eauto 6.
  - right. cbn. eauto 6.
  - right. cbn. repeat split. eexists. split; [reflexivity|].
    apply add_item_to_inventory_fields.
  - right. cbn. repeat split. exists g2. split; [reflexivity|].
    revert Hg2. destruct (list_in health_potion _); intros Hg2.
    + now apply use_health_potion_keeps in Hg2.
    + now injection Hg2 as <- _.
  - exfalso. cbn in Hu. destruct text; [contradiction | discriminate].
Qed.

(** X3 on a click on "Pick up" with a key pending. *)
Lemma X3_buttons_are_no_turn_witness :
  main ascii_lower
    (store (mk_session [intro_message] [intro_message]
              (mk_game 70 [] 2 (Some (lit "key")))))
    click_pick_up (Some (lit "never read")) =
  main ascii_lower
    (store (mk_session [intro_message] [intro_message]
              (mk_game 70 [] 2 (Some (lit "key")))))
    click_pick_up None.
Proof.
  apply (X3_buttons_are_no_turn ascii_lower
           (store (mk_session [intro_message] [intro_message]
                     (mk_game 70 [] 2 (Some (lit "key")))))
           click_pick_up (Some (lit "never read")) None).
  reflexivity.
Defined.

(** ** The potion error is out of reach *)

(** X4.  No run of [main] shows "You don't have any health potions!": the
    button that calls [use_health_potion] is only reached with a potion in
    the inventory. *)
Theorem X4_no_potion_error_in_main (lower : str -> str) (ss ss' : session_state)
    (w : widget_input) (reply : option str) (out : list ui_event) (again : bool) :
  main lower ss w reply = Some (ss', out, again) ->
  ~ In st_error_no_potion out.
Proof.
  intros Hm.
  destruct (main_shape lower ss ss' w reply out again Hm)
    as [(_ & _ & [(_ & ->) | (_ & -> & _)]) | [(_ & _ & -> & _)
       | [(_ & _ & _ & _ & -> & _)
       | [(_ & _ & _ & -> & _) | [(_ & _ & g2 & Hg2 & _)
       | (_ & text & _ & _ & _ & -> & _)]]]]].
  - intros [].
  - intros [H | []]. discriminate.
  - intros [H | []]. discriminate.
  - intros [].
  - destruct (add_item_to_inventory_fields
                (game_state (ensure_intro (initialize_session_state ss))))
      as (_ & _ & [-> | (item & ->)]).
    + intros [].
    + intros [H | []]. discriminate.
  - destruct (list_in health_potion
                (inventory (game_state (ensure_intro (initialize_session_state ss)))))
      eqn:E.
    + rewrite (use_health_potion_shown _ _ _ E Hg2). intros [H | []]. discriminate.
    + injection Hg2 as _ <-. intros [].
  - destruct (play_turn_history lower text reply
                (ensure_intro (initialize_session_state ss))) as (_ & _ & _ & ->).
    rewrite update_game_state_closed. cbn [snd].
    intros H. apply in_app_or in H as [H | H].
    + destruct reply; cbn in H; [contradiction|].
      destruct H as [H | []]. discriminate.
    + apply in_map_iff in H as (x & Hx & _). discriminate.
Qed.

(** X4 on a click on "Use Health Potion" that arrives with no potion left. *)
Lemma X4_no_potion_error_in_main_witness :
  main ascii_lower
    (store (mk_session [intro_message] [intro_message] (mk_game 40 [] 2 None)))
    click_use_health_potion None =
  Some (store (mk_session [intro_message] [intro_message] (mk_game 40 [] 2 None)),
        [], false) /\
  ~ In st_error_no_potion [].
Proof.
  split; [reflexivity|].
  apply (X4_no_potion_error_in_main ascii_lower
           (store (mk_session [intro_message] [intro_message] (mk_game 40 [] 2 None)))
           (store (mk_session [intro_message] [intro_message] (mk_game 40 [] 2 None)))
           click_use_health_potion None [] false).
  reflexivity.
Defined.

(** ** A pending item stays pending *)

Lemma update_game_state_keeps_found (lower : str -> str) (text : str)
    (g : GameState) (i : str) :
  found_item g = Some i ->
  exists j, found_item (fst (update_game_state lower text g)) = Some j /\
            (item_hits (lower text) = [] -> j = i).
Proof.
  intros Hf. rewrite update_game_state_closed. cbn [fst found_item]. rewrite Hf.
  destruct (item_hits (lower text)) as [|k hits] using rev_ind.
  - exists i. split; reflexivity.
  - exists k. rewrite map_app. cbn [map]. rewrite last_last.
    split; [reflexivity|]. intros H. apply app_eq_nil in H as [_ H]. discriminate.
Qed.

(** X5.  The scan never clears [found_item]: a pending item stays pending
    across turns, replaced only when a later text marks another catalog
    entry.  In a whole run, as long as "Pick up" is not clicked and the game
    is not started over, an item that was pending is still pending afterwards,
    and it is the same item unless a text was submitted. *)
Theorem X5_found_item_persists (lower : str -> str) (ss ss' : session_state)
    (w : widget_input) (reply : option str) (out : list ui_event) (again : bool)
    (i : str) :
  found_item (game_state (initialize_session_state ss)) = Some i ->
  button_pick_up w = false ->
  main lower ss w reply = Some (ss', out, again) ->
  ss' = session_clear \/
  exists g' j,
    ss_game_state ss' = Some g' /\ found_item g' = Some j /\
    (user_input w = None -> j = i).
Proof.
  intros Hf Hp Hm. rewrite <- ensure_intro_game in Hf.
  destruct (main_shape lower ss ss' w reply out again Hm)
    as [(-> & _) | [(_ & -> & _) | [(_ & _ & _ & -> & _)
       | [(_ & -> & _) | [(_ & _ & g2 & Hg2 & -> & _)
       | (_ & text & -> & Ht & -> & _)]]]]].
  - left. reflexivity.
  - right. cbn. eauto.
  - right. cbn. eauto.
  - discriminate.
  - right. exists g2, i. cbn. repeat split.
    revert Hg2. destruct (list_in health_potion _); intros Hg2.
    + apply use_health_potion_keeps in Hg2 as [_ ->]. exact Hf.
    + injection Hg2 as <- _. exact Hf.
  - right.
    destruct (play_turn_history lower text reply
                (ensure_intro (initialize_session_state ss))) as (_ & _ & Hg & _).
    destruct (update_game_state_keeps_found lower
                (fst (generate_story_response reply))
                (set_choices_made
                   (choices_made (game_state (ensure_intro (initialize_session_state ss))) + 1)
                   (game_state (ensure_intro (initialize_session_state ss)))) i Hf)
      as (j & Hj & _).
    eexists _, j. cbn [store ss_game_state]. split; [reflexivity|].
    rewrite Hg. split; [exact Hj|].
    cbn. destruct text; [contradiction | discriminate].
Qed.

(** X5 on a turn whose text marks nothing, with a map pending. *)
Lemma X5_found_item_persists_witness :
  let ss := store (mk_session [intro_message] [intro_message]
                     (mk_game 100 [] 1 (Some (lit "map")))) in
  let log := [intro_message; mk_message role_user (lit "wait");
              mk_message role_model (lit "Nothing happens.")] in
  let ss' := store (mk_session log log (mk_game 100 [] 2 (Some (lit "map")))) in
  main ascii_lower ss (chat_input (lit "wait")) (Some (lit "Nothing happens.")) =
    Some (ss', [], true) /\
  (ss' = session_clear \/
   exists g' j,
     ss_game_state ss' = Some g' /\ found_item g' = Some j /\
     (user_input (chat_input (lit "wait")) = None -> j = lit "map")).
Proof.
  intros ss log ss'. split; [reflexivity|].
  apply (X5_found_item_persists ascii_lower ss ss' (chat_input (lit "wait"))
           (Some (lit "Nothing happens.")) [] true (lit "map")); reflexivity.
Defined.

(** ** What a turn does to the state *)

Lemma filter_length_bound {A : Type} (p : A -> bool) (l : list A) :
  (length (filter p l) <= length l)%nat.
Proof.
  induction l as [|a l IH]; cbn [filter length]; [lia|].
  destruct (p a); cbn [length]; lia.
Qed.

(** X6.  A submitted action, with the player alive, is one turn: the
    response is the generator's text, or the fallback text when it failed;
    health drops by 15 for each danger keyword in the response, down to 0 at
    most, so never rises and never drops by more than 120; choices_made
    grows by one for the action and by one for each marked catalog entry in
    the response; the inventory is untouched.  The text the player typed is
    logged but never scanned: the resulting game state is the same for any
    other non-empty text. *)
Theorem X6_turn_effect (lower : str -> str) (ss : session_state) (text : str)
    (reply : option str) :
  let s := ensure_intro (initialize_session_state ss) in
  let g := game_state s in
  let response := fst (generate_story_response reply) in
  let dmg := 15 * Z.of_nat (length (danger_hits (lower response))) in
  let found := item_hits (lower response) in
  0 < health g -> text <> [] ->
  exists s',
    main lower ss (chat_input text) reply =
      Some (store s',
            snd (generate_story_response reply) ++ map st_write_found found,
            true) /\
    game_state s' =
      mk_game (Z.max (health g - dmg) 0) (inventory g)
        (choices_made g + 1 + Z.of_nat (length found))
        (last (map Some found) (found_item g)) /\
    health g - 120 <= health (game_state s') <= health g /\
    (forall text2, text2 <> [] ->
     exists s2, main lower ss (chat_input text2) reply =
                  Some (store s2,
                        snd (generate_story_response reply) ++ map st_write_found found,
                        true) /\
                game_state s2 = game_state s').
Proof.
  intros s g response dmg found Hh Ht.
  assert (Hturn : forall t, t <> [] ->
    main lower ss (chat_input t) reply =
      Some (store (fst (play_turn lower t reply s)),
            snd (generate_story_response reply) ++ map st_write_found found,
            true) /\
    game_state (fst (play_turn lower t reply s)) =
      mk_game (Z.max (health g - dmg) 0) (inventory g)
        (choices_made g + 1 + Z.of_nat (length found))
        (last (map Some found) (found_item g))).
  { intros t Hne. rewrite (main_chat_input lower ss t reply Hh Hne). fold s.
    destruct (play_turn_history lower t reply s) as (_ & _ & Hg & Ho).
    rewrite Ho, Hg, update_game_state_closed.
    cbn [fst snd health inventory choices_made found_item set_choices_made].
    fold response. split; reflexivity. }
  destruct (Hturn text Ht) as [Hm Hg].
  exists (fst (play_turn lower text reply s)). split; [exact Hm|].
  split; [exact Hg|]. split.
  - rewrite Hg. cbn [health]. subst dmg.
    pose proof (filter_length_bound (fun action => str_in action (lower response))
                  dangerous_actions) as Hb.
    change (length dangerous_actions) with 8%nat in Hb.
    fold (danger_hits (lower response)) in Hb. lia.
  - intros text2 Ht2. destruct (Hturn text2 Ht2) as [Hm2 Hg2].
    exists (fst (play_turn lower text2 reply s)). split; [exact Hm2|].
    rewrite Hg2, Hg. reflexivity.
Qed.

(** X6 on a turn whose response holds two danger keywords and one item. *)
Lemma X6_turn_effect_witness :
  exists s',
    main ascii_lower
      (store (mk_session [intro_message] [intro_message] (mk_game 40 [lit "key"] 6 None)))
      (chat_input (lit "look around"))
      (Some (lit "You approach the cave and fight a wolf. A **shield** lies there.")) =
    Some (store s', [st_write_found (lit "shield")], true) /\
    game_state s' = mk_game 10 [lit "key"] 8 (Some (lit "shield")).
Proof.
  destruct (X6_turn_effect ascii_lower
              (store (mk_session [intro_message] [intro_message]
                        (mk_game 40 [lit "key"] 6 None)))
              (lit "look around")
              (Some (lit "You approach the cave and fight a wolf. A **shield** lies there.")))
    as (s' & Hm & Hg & _).
  - cbn. lia.
  - discriminate.
  - exists s'. split; [exact Hm | exact Hg].
Defined.

(** ** The log only grows *)

Lemma ensure_intro_lists (ss : session_state) :
  conversation_history (ensure_intro (initialize_session_state ss)) =
    history_of ss ++ intro_part ss /\
  messages (ensure_intro (initialize_session_state ss)) =
    messages_of ss ++ intro_part ss.
Proof.
  unfold ensure_intro, initialize_session_state, intro_part, history_of, messages_of.
  cbn [conversation_history messages game_state].
  destruct (ss_conversation_history ss) as [[|m h]|];
    cbn [conversation_history messages app]; rewrite ?app_nil_r; split; reflexivity.
Qed.

Lemma main_log (lower : str -> str) (ss ss' : session_state) (w : widget_input)
    (reply : option str) (out : list ui_event) (again : bool) :
  main lower ss w reply = Some (ss', out, again) ->
  ss' = session_clear \/
  exists turn,
    ss_conversation_history ss' = Some (history_of ss ++ intro_part ss ++ turn) /\
    ss_messages ss' = Some (messages_of ss ++ intro_part ss ++ turn) /\
    (turn = [] \/
     exists text,
       w = chat_input text /\ text <> [] /\
       turn = [mk_message role_user text;
               mk_message role_model (fst (generate_story_response reply))]).
Proof.
  intros Hm. destruct (ensure_intro_lists ss) as [Hh Hmsg].
  destruct (main_shape lower ss ss' w reply out again Hm)
    as [(-> & _) | [(_ & -> & _) | [(_ & _ & _ & -> & _)
       | [(_ & _ & -> & _) | [(_ & _ & g2 & _ & -> & _)
       | (_ & text & -> & Ht & -> & _)]]]]].
  - left. reflexivity.
  - right. exists []. cbn [store ss_conversation_history ss_messages].
    rewrite Hh, Hmsg, !app_nil_r. auto.
  - right. exists []. cbn [store ss_conversation_history ss_messages].
    rewrite Hh, Hmsg, !app_nil_r. auto.
  - right. exists []. cbn [store ss_conversation_history ss_messages
                            conversation_history messages].
    rewrite Hh, Hmsg, !app_nil_r. auto.
  - right. exists []. cbn [store ss_conversation_history ss_messages
                            conversation_history messages].
    rewrite Hh, Hmsg, !app_nil_r. auto.
  - right.
    destruct (play_turn_history lower text reply
                (ensure_intro (initialize_session_state ss))) as (H1 & H2 & _).
    eexists. cbn [store ss_conversation_history ss_messages].
    rewrite H1, H2, Hh, Hmsg, <- !app_assoc.
    split; [reflexivity|]. split; [reflexivity|]. right. exists text. auto.
Qed.

(** X7.  A run that does not start the game over never changes or removes
    an entry of [conversation_history] or [messages]: it appends the same
    entries to both, namely the introduction when the history was empty,
    and then, for a submitted action, the player's turn followed by the
    narrator's turn; nothing is appended for any other widget. *)
Theorem X7_log_append_only (lower : str -> str) (ss ss' : session_state)
    (w : widget_input) (reply : option str) (out : list ui_event) (again : bool) :
  main lower ss w reply = Some (ss', out, again) ->
  ss' = session_clear \/
  exists turn,
    ss_conversation_history ss' = Some (history_of ss ++ intro_part ss ++ turn) /\
    ss_messages ss' = Some (messages_of ss ++ intro_part ss ++ turn) /\
    (turn = [] \/
     exists text,
       w = chat_input text /\ text <> [] /\
       turn = [mk_message role_user text;
               mk_message role_model (fst (generate_story_response reply))]).
Proof. apply main_log. Qed.

(** X7 on the first action of a fresh page. *)
Lemma X7_log_append_only_witness :
  let ss' := store (mk_session
                      [intro_message; mk_message role_user (lit "go north");
                       mk_message role_model (lit "You walk on.")]
                      [intro_message; mk_message role_user (lit "go north");
                       mk_message role_model (lit "You walk on.")]
                      (mk_game 100 [] 1 None)) in
  main ascii_lower session_clear (chat_input (lit "go north"))
    (Some (lit "You walk on.")) = Some (ss', [], true) /\
  (ss' = session_clear \/
   exists turn,
     ss_conversation_history ss' =
       Some (history_of session_clear ++ intro_part session_clear ++ turn) /\
     ss_messages ss' =
       Some (messages_of session_clear ++ intro_part session_clear ++ turn) /\
     (turn = [] \/
      exists text,
        chat_input (lit "go north") = chat_input text /\ text <> [] /\
        turn = [mk_message role_user text;
                mk_message role_model
                  (fst (generate_story_response (Some (lit "You walk on."))))])).
Proof.
  intros ss'. split; [reflexivity|].
  apply (X7_log_append_only ascii_lower session_clear ss'
           (chat_input (lit "go north")) (Some (lit "You walk on.")) [] true).
  reflexivity.
Defined.

(** ** The shape of the log in every reachable session *)

Lemma log_of_turns_app (t1 t2 : list (str * str)) :
  log_of_turns (t1 ++ t2) = log_of_turns t1 ++ log_of_turns t2.
Proof.
  induction t1 as [|[p n] t1 IH]; [reflexivity|].
  cbn [app log_of_turns]. rewrite IH. reflexivity.
Qed.

Lemma main_log_inv (lower : str -> str) (ss ss' : session_state) (w : widget_input)
    (reply : option str) (out : list ui_event) (again : bool) :
  log_inv ss -> main lower ss w reply = Some (ss', out, again) ->
  ss' = session_clear \/
  exists turns,
    ss_conversation_history ss' = Some (intro_message :: log_of_turns turns) /\
    ss_messages ss' = Some (intro_message :: log_of_turns turns).
Proof.
  intros [Heq Hshape] Hm.
  destruct (main_log lower ss ss' w reply out again Hm)
    as [-> | (turn & Hh & Hmsg & Hturn)]; [now left|]. right.
  assert (Hsame : messages_of ss = history_of ss)
    by (unfold messages_of, history_of; now rewrite Heq).
  rewrite Hsame in Hmsg.
  assert (Hturn' : exists t, turn = log_of_turns t).
  { destruct Hturn as [-> | (text & _ & _ & ->)].
    - now exists [].
    - now exists [(text, fst (generate_story_response reply))]. }
  destruct Hturn' as (t & ->).
  assert (Hbase : exists turns, history_of ss ++ intro_part ss =
                                intro_message :: log_of_turns turns).
  { unfold intro_part, history_of in *.
    destruct (ss_conversation_history ss) as [[|m h]|].
    - now exists [].
    - destruct Hshape as [Hn | (turns & Ht)]; [discriminate|].
      exists turns. rewrite app_nil_r. exact Ht.
    - now exists []. }
  destruct Hbase as (turns & Hb).
  exists (turns ++ t). rewrite Hh, Hmsg, app_assoc, Hb, log_of_turns_app.
  split; reflexivity.
Qed.

Lemma log_inv_of_shape (ss : session_state) (turns : list (str * str)) :
  ss_conversation_history ss = Some (intro_message :: log_of_turns turns) ->
  ss_messages ss = Some (intro_message :: log_of_turns turns) ->
  log_inv ss.
Proof.
  intros Hh Hm. unfold log_inv. rewrite Hh, Hm. split; [reflexivity|].
  right. now exists turns.
Qed.

Lemma session_clear_log_inv : log_inv session_clear.
Proof. split; [reflexivity | exact I]. Qed.

Lemma run_log_inv (lower : str -> str) (ss ss' : session_state) (w : widget_input)
    (reply : option str) (out : list ui_event) :
  log_inv ss -> run lower ss w reply = Some (ss', out) ->
  exists turns,
    ss_conversation_history ss' = Some (intro_message :: log_of_turns turns) /\
    ss_messages ss' = Some (intro_message :: log_of_turns turns).
Proof.
  intros Hinv Hr. unfold run in Hr.
  destruct (main lower ss w reply) as [[[ss1 out1] again]|] eqn:E1; [|discriminate].
  pose proof (main_log_inv lower ss ss1 w reply out1 again Hinv E1) as H1.
  pose proof (main_shape lower ss ss1 w reply out1 again E1) as Hs.
  assert (Hinv1 : log_inv ss1).
  { destruct H1 as [-> | (turns & Hh & Hm)];
      [apply session_clear_log_inv | eapply log_inv_of_shape; eauto]. }
  destruct again.
  - rewrite main_no_input in Hr. injection Hr as <- _.
    pose proof (main_no_input lower ss1 None) as E2.
    destruct (main_log_inv lower ss1 _ no_input None _ false Hinv1 E2)
      as [Hc | H2]; [discriminate | exact H2].
  - injection Hr as <- _.
    destruct H1 as [-> | H1]; [|exact H1].
    exfalso. cbv zeta in Hs.
    destruct Hs as [(_ & Hf & _) | [(_ & Hf & _) | [(_ & _ & _ & Hf & _)
       | [(_ & _ & Hf & _) | [(_ & _ & g2 & _ & Hf & _)
       | (_ & text & _ & _ & _ & _ & Hf)]]]]]; discriminate.
Qed.

(** X8.  Whatever the player does and whatever the generator answers, from
    the first page load on, the page never stops on an exception, and after
    every run [conversation_history] and [messages] hold the same entries:
    the introduction first, then turns in pairs, a player entry followed by
    a narrator entry. *)
Theorem X8_log_shape_reachable (lower : str -> str)
    (inputs : list (widget_input * option str)) :
  exists ss',
    runs lower session_clear inputs = Some ss' /\
    (inputs = [] /\ ss' = session_clear \/
     exists turns,
       ss_conversation_history ss' = Some (intro_message :: log_of_turns turns) /\
       ss_messages ss' = Some (intro_message :: log_of_turns turns)).
Proof.
  assert (Hgen : forall inputs ss, log_inv ss ->
    exists ss', runs lower ss inputs = Some ss' /\
      (inputs = [] /\ ss' = ss \/
       exists turns,
         ss_conversation_history ss' = Some (intro_message :: log_of_turns turns) /\
         ss_messages ss' = Some (intro_message :: log_of_turns turns))).
  { clear inputs. induction inputs as [|[w reply] rest IH]; intros ss Hinv.
    - exists ss. split; [reflexivity | left; auto].
    - cbn [runs]. destruct (run_total lower ss w reply) as ([ss1 out1] & E1).
      rewrite E1.
      destruct (run_log_inv lower ss ss1 w reply out1 Hinv E1) as (turns & Hh & Hm).
      destruct (IH ss1 (log_inv_of_shape ss1 turns Hh Hm))
        as (ss' & Hr & [[_ ->] | Hshape]).
      + exists ss1. split; [exact Hr|]. right. eauto.
      + exists ss'. split; [exact Hr|]. right. exact Hshape. }
  apply Hgen. apply session_clear_log_inv.
Qed.

(** ** The game state in every reachable session *)

Lemma initial_game_reach_inv : game_reach_inv initial_game_state.
Proof.
  split; [apply initial_game_inv|]. split; [intros item []|]. cbn. lia.
Qed.

Lemma update_game_state_reach_inv (lower : str -> str) (text : str) (g : GameState) :
  game_reach_inv g -> game_reach_inv (fst (update_game_state lower text g)).
Proof.
  intros (Hi & Hk & Hc). split; [now apply update_game_state_inv|].
  rewrite update_game_state_closed. split; [exact Hk|].
  cbn [fst choices_made]. lia.
Qed.

Lemma add_item_to_inventory_reach_inv (g : GameState) :
  game_reach_inv g -> game_reach_inv (fst (add_item_to_inventory g)).
Proof.
  intros (Hi & Hk & Hc). split; [now apply add_item_to_inventory_inv|].
  destruct Hi as (Hf & _). unfold found_known in Hf.
  unfold add_item_to_inventory. destruct (found_item g) as [item|]; [|now split].
  destruct (truthy item && negb (list_in item (inventory g)))%bool; [|now split].
  split; [|exact Hc]. intros x Hx. cbn in Hx.
  apply in_app_or in Hx as [Hx | [<- | []]]; auto.
Qed.

Lemma use_health_potion_reach_inv (g g' : GameState) (out : list ui_event) :
  game_reach_inv g -> use_health_potion g = Some (g', out) -> game_reach_inv g'.
Proof.
  intros (Hi & Hk & Hc) H. split; [eapply use_health_potion_inv; eauto|].
  destruct (use_health_potion_keeps _ _ _ H) as [Hch _]. rewrite Hch.
  split; [|exact Hc].
  unfold use_health_potion in H.
  destruct (list_in health_potion (inventory g)) eqn:E.
  - apply list_in_In in E.
    destruct (list_remove_In _ _ E) as (l1 & l2 & Hl & _ & Hr).
    cbn [inventory set_health] in H. rewrite Hr in H. injection H as <- _.
    intros x Hx. cbn in Hx. apply Hk. rewrite Hl.
    apply in_app_or in Hx as [Hx | Hx]; apply in_or_app; [auto | right; now right].
  - injection H as <- _. exact Hk.
Qed.

Lemma main_reach_inv (lower : str -> str) (ss ss' : session_state) (w : widget_input)
    (reply : option str) (out : list ui_event) (again : bool) :
  session_reach_inv ss -> main lower ss w reply = Some (ss', out, again) ->
  session_reach_inv ss'.
Proof.
  intros Hinv Hm.
  assert (H0 : game_reach_inv
                 (game_state (ensure_intro (initialize_session_state ss)))).
  { rewrite ensure_intro_game. unfold session_reach_inv in Hinv.
    unfold initialize_session_state. cbn [game_state].
    destruct (ss_game_state ss); [exact Hinv | exact initial_game_reach_inv]. }
  destruct (main_shape lower ss ss' w reply out again Hm)
    as [(-> & _) | [(_ & -> & _) | [(_ & _ & _ & -> & _)
       | [(_ & _ & -> & _) | [(_ & _ & g2 & Hg2 & -> & _)
       | (_ & text & _ & _ & -> & _)]]]]].
  - exact I.
  - exact H0.
  - exact H0.
  - cbn. now apply add_item_to_inventory_reach_inv.
  - cbn. revert Hg2. destruct (list_in health_potion _); intros Hg2.
    + eapply use_health_potion_reach_inv; eauto.
    + injection Hg2 as <- _. exact H0.
  - unfold session_reach_inv, store. cbn [ss_game_state].
    destruct (play_turn_history lower text reply
                (ensure_intro (initialize_session_state ss))) as (_ & _ & -> & _).
    apply update_game_state_reach_inv.
    destruct H0 as (Hi & Hk & Hc). split; [exact Hi|]. split; [exact Hk|].
    cbn. lia.
Qed.

Lemma run_reach_inv (lower : str -> str) (ss ss' : session_state) (w : widget_input)
    (reply : option str) (out : list ui_event) :
  session_reach_inv ss -> run lower ss w reply = Some (ss', out) ->
  session_reach_inv ss'.
Proof.
  intros Hinv H. unfold run in H.
  destruct (main lower ss w reply) as [[[ss1 out1] again]|] eqn:E1; [|discriminate].
  pose proof (main_reach_inv _ _ _ _ _ _ _ Hinv E1) as H1.
  destruct again.
  - destruct (main lower ss1 no_input None) as [[[ss2 out2] again2]|] eqn:E2;
      [|discriminate].
    injection H as <- _. eapply main_reach_inv; eauto.
  - injection H as <- _. exact H1.
Qed.

Lemma runs_reach_inv (lower : str -> str) (inputs : list (widget_input * option str))
    (ss ss' : session_state) :
  session_reach_inv ss -> runs lower ss inputs = Some ss' -> session_reach_inv ss'.
Proof.
  revert ss. induction inputs as [|[w reply] rest IH]; intros ss Hinv H; cbn [runs] in H.
  - injection H as <-. exact Hinv.
  - destruct (run lower ss w reply) as [[ss1 out1]|] eqn:E1; [|discriminate].
    eapply IH; [|exact H]. eapply run_reach_inv; eauto.
Qed.

(** X9.  In every session reachable from the first page load, by any inputs
    and any generator answers: health lies in [0,100]; choices_made is not
    negative; the inventory holds catalog keys only, none of them twice,
    hence at most seven items; and [found_item], if set, is a catalog key. *)
Theorem X9_game_state_reachable (lower : str -> str)
    (inputs : list (widget_input * option str)) (ss' : session_state)
    (g : GameState) :
  runs lower session_clear inputs = Some ss' ->
  ss_game_state ss' = Some g ->
  0 <= health g <= 100 /\
  0 <= choices_made g /\
  NoDup (inventory g) /\
  (forall item, In item (inventory g) -> In item catalog_keys) /\
  (length (inventory g) <= 7)%nat /\
  found_known g.
Proof.
  intros Hr Hg.
  pose proof (runs_reach_inv lower inputs session_clear ss' I Hr) as Hinv.
  unfold session_reach_inv in Hinv. rewrite Hg in Hinv.
  destruct Hinv as ((Hf & Hn & Hh) & Hk & Hc).
  repeat split; try assumption; try lia.
  change 7%nat with (length catalog_keys).
  apply NoDup_incl_length; assumption.
Qed.

(** X9 after a turn that finds a potion and the click that picks it up. *)
Lemma X9_game_state_reachable_witness :
  runs ascii_lower session_clear
    [(chat_input (lit "search the hollow tree"),
      Some (lit "You follow the glow and find a **potion**."));
     (click_pick_up, None)] =
  Some (store (mk_session
                 [intro_message; mk_message role_user (lit "search the hollow tree");
                  mk_message role_model (lit "You follow the glow and find a **potion**.")]
                 [intro_message; mk_message role_user (lit "search the hollow tree");
                  mk_message role_model (lit "You follow the glow and find a **potion**.")]
                 (mk_game 85 [lit "potion"] 2 None))) /\
  (length (inventory (mk_game 85 [lit "potion"] 2 None)) <= 7)%nat.
Proof.
  split; [vm_compute; reflexivity|].
  eapply (X9_game_state_reachable ascii_lower
            [(chat_input (lit "search the hollow tree"),
              Some (lit "You follow the glow and find a **potion**."));
             (click_pick_up, None)]).
  - vm_compute. reflexivity.
  - reflexivity.
Defined.

(** ** Picking up and drinking a potion *)

Lemma list_remove_app_last (x : str) (l : list str) :
  ~ In x l -> list_remove x (l ++ [x]) = Some l.
Proof.
  induction l as [|y l IH]; intros Hn; cbn [app list_remove].
  - rewrite str_eqb_refl. reflexivity.
  - destruct (str_eqb y x) eqn:E.
    + apply str_eqb_eq in E. subst. contradiction Hn. now left.
    + rewrite IH; [reflexivity|]. intros H. apply Hn. now right.
Qed.

(** X10.  Found, picked up, drunk: with health_potion pending and not yet
    carried, [add_item_to_inventory] followed by [use_health_potion] gives
    the inventory back exactly as it was, no item pending, health raised to
    min(health + 30, 100) and choices_made untouched. *)
Theorem X10_pick_up_then_drink (g : GameState) :
  found_item g = Some health_potion ->
  ~ In health_potion (inventory g) ->
  add_item_to_inventory g =
    (mk_game (health g) (inventory g ++ [health_potion]) (choices_made g) None,
     [st_success_added health_potion]) /\
  use_health_potion (fst (add_item_to_inventory g)) =
    Some (mk_game (Z.min (health g + 30) 100) (inventory g) (choices_made g) None,
          [st_success_potion]).
Proof.
  intros Hf Hn.
  assert (Ha : add_item_to_inventory g =
    (mk_game (health g) (inventory g ++ [health_potion]) (choices_made g) None,
     [st_success_added health_potion])).
  { unfold add_item_to_inventory. rewrite Hf.
    apply list_in_false in Hn. rewrite Hn. reflexivity. }
  split; [exact Ha|]. rewrite Ha. cbn [fst]. unfold use_health_potion.
  cbn [inventory health set_health].
  assert (Hin : list_in health_potion (inventory g ++ [health_potion]) = true).
  { apply list_in_In, in_or_app. right. now left. }
  rewrite Hin, (list_remove_app_last _ _ Hn). reflexivity.
Qed.

(** X10 at health 80 with a key carried. *)
Lemma X10_pick_up_then_drink_witness :
  use_health_potion
    (fst (add_item_to_inventory (mk_game 80 [lit "key"] 5 (Some health_potion)))) =
  Some (mk_game 100 [lit "key"] 5 None, [st_success_potion]).
Proof.
  apply (X10_pick_up_then_drink (mk_game 80 [lit "key"] 5 (Some health_potion))).
  - reflexivity.
  - vm_compute. intros [H | H]; [discriminate | exact H].
Defined.

(** X11.  [add_item_to_inventory] is idempotent: called again on its own
    result it changes nothing and shows nothing, whatever the state, so a
    second click on "Pick up" cannot add the item twice. *)
Theorem X11_add_item_idempotent (g : GameState) :
  add_item_to_inventory (fst (add_item_to_inventory g)) =
    (fst (add_item_to_inventory g), []).
Proof.
  unfold add_item_to_inventory at 2 3.
  destruct (found_item g) as [item|] eqn:Ef.
  - destruct (truthy item && negb (list_in item (inventory g)))%bool eqn:Ec.
    + reflexivity.
    + cbn [fst]. unfold add_item_to_inventory. rewrite Ef, Ec. reflexivity.
  - cbn [fst]. unfold add_item_to_inventory. rewrite Ef. reflexivity.
Qed.

(** ** What the generator is asked *)

Lemma last_message_app (h : list message) (m : message) :
  last_message (h ++ [m]) = Some m.
Proof. unfold last_message. rewrite map_app. cbn [map]. apply last_last. Qed.

Lemma main_call_idle (chat : list message -> str -> option str)
    (lower : str -> str) (ss : session_state) (w : widget_input)
    (reply : option str) :
  user_input w = None -> main_call chat lower ss w = main lower ss w reply.
Proof. intros H. unfold main_call, main. rewrite H. reflexivity. Qed.

(** X12.  The request of a turn.  With the player alive and a non-empty
    action, [main] calls the generator once, with a history that already
    ends with the player's new entry and with the message made of the
    player's text, a newline and the state summary; the summary is computed
    after choices_made has counted the action and before the response is
    scanned, and it is not stored in the log.  Indexing the history cannot
    fail there; on an empty history [generate_story_response] returns the
    fallback text and shows the error without the generator's answer
    mattering.  For every other input the generator is not called. *)
Theorem X12_generator_request (chat : list message -> str -> option str)
    (lower : str -> str) (ss : session_state) (text : str) :
  let s := ensure_intro (initialize_session_state ss) in
  let hist := conversation_history s ++ [mk_message role_user text] in
  let g := set_choices_made (choices_made (game_state s) + 1) (game_state s) in
  (0 < health (game_state s) -> text <> [] ->
   main_call chat lower ss (chat_input text) =
     main lower ss (chat_input text)
       (chat hist (text ++ lit nl ++ context g))) /\
  (forall w reply, user_input w = None ->
     main_call chat lower ss w = main lower ss w reply) /\
  (forall g0, generate_story_response_call chat [] g0 =
              (fallback_text, [st_error_generating])).
Proof.
  intros s hist g. split; [|split].
  - intros Hh Ht. unfold main_call, main. fold s.
    destruct (health (game_state s) <=? 0); [reflexivity|].
    cbn [button_restart_game button_pick_up button_use_health_potion user_input].
    rewrite !andb_false_r. destruct text as [|c text]; [contradiction|].
    cbn [truthy]. unfold play_turn_call, play_turn.
    cbn [conversation_history messages game_state].
    unfold generate_story_response_call. rewrite last_message_app.
    cbn [msg_text]. reflexivity.
  - intros w reply Hw. now apply main_call_idle.
  - intros g0. reflexivity.
Qed.

(** X12 on a generator that answers with the message it was sent: the
    response logged is the player's text, a newline and the summary. *)
Lemma X12_generator_request_witness :
  main_call (fun _ msg => Some msg) ascii_lower
    (store (mk_session [intro_message] [intro_message] (mk_game 85 [] 3 None)))
    (chat_input (lit "wait")) =
  main ascii_lower
    (store (mk_session [intro_message] [intro_message] (mk_game 85 [] 3 None)))
    (chat_input (lit "wait"))
    (Some (lit "wait" ++ lit nl ++ context (mk_game 85 [] 4 None))).
Proof.
  apply (proj1 (X12_generator_request (fun _ msg => Some msg) ascii_lower
           (store (mk_session [intro_message] [intro_message] (mk_game 85 [] 3 None)))
           (lit "wait"))).
  - reflexivity.
  - discriminate.
Defined.

(** ** Drawing the markers *)

Lemma replace_from_absent (old new s : str) :
  str_in old s = false -> replace_from old new 0 s = s.
Proof.
  induction s as [|c s IH]; [reflexivity|]. cbn [str_in replace_from].
  intros H. apply orb_false_iff in H as [Hs Hr]. rewrite Hs, (IH Hr). reflexivity.
Qed.

Lemma str_replace_absent (old new s : str) :
  str_in old s = false -> str_replace old new s = s.
Proof.
  intros H. destruct old as [|o old].
  - destruct s; discriminate.
  - now apply replace_from_absent.
Qed.

Lemma star_pair_startswith (c : N) (s : str) :
  startswith (lit "**") (c :: s) = (N.eqb 42 c && startswith [42%N] s)%bool.
Proof. reflexivity. Qed.

Lemma replace_star_pair (new rest : str) :
  replace_from (lit "**") new 0 (42%N :: 42%N :: rest) =
  new ++ replace_from (lit "**") new 0 rest.
Proof. reflexivity. Qed.

Lemma str_in_star_free_prefix (a b : str) :
  ~ In 42%N a -> str_in (lit "**") (a ++ b) = str_in (lit "**") b.
Proof.
  induction a as [|x a IH]; intros Hn; [reflexivity|].
  cbn [app str_in]. rewrite star_pair_startswith.
  destruct (N.eqb 42 x) eqn:E.
  - apply N.eqb_eq in E. subst. contradiction Hn. now left.
  - cbn [andb orb]. apply IH. intros H. apply Hn. now right.
Qed.

Lemma replace_star_free_prefix (new a b : str) :
  ~ In 42%N a ->
  replace_from (lit "**") new 0 (a ++ b) = a ++ replace_from (lit "**") new 0 b.
Proof.
  induction a as [|x a IH]; intros Hn; [reflexivity|].
  cbn [app replace_from]. rewrite star_pair_startswith.
  destruct (N.eqb 42 x) eqn:E.
  - apply N.eqb_eq in E. subst. contradiction Hn. now left.
  - cbn [andb]. f_equal. apply IH. intros H. apply Hn. now right.
Qed.

Lemma replace_keeps_head (new s : str) :
  startswith [42%N] s = false ->
  startswith [42%N] (replace_from (lit "**") new 0 s) = false.
Proof.
  destruct s as [|d s]; [reflexivity|]. intros H.
  cbn [replace_from]. rewrite star_pair_startswith.
  cbn [startswith] in H. rewrite andb_true_r in H. rewrite H.
  cbn [andb startswith]. rewrite H. reflexivity.
Qed.

(** Once every pair of asterisks is replaced by a text without asterisks,
    no pair of asterisks is left. *)
Lemma replace_leaves_no_star_pair (new s : str) :
  ~ In 42%N new ->
  str_in (lit "**") (replace_from (lit "**") new 0 s) = false.
Proof.
  intros Hnew.
  assert (H : forall n s, (length s <= n)%nat ->
            str_in (lit "**") (replace_from (lit "**") new 0 s) = false).
  { clear s. induction n as [|n IH]; intros s Hlen.
    - destruct s; [reflexivity | cbn in Hlen; lia].
    - destruct s as [|c s]; [reflexivity|].
      destruct (startswith (lit "**") (c :: s)) eqn:E.
      + rewrite star_pair_startswith in E. apply andb_true_iff in E as [Ec Es].
        apply N.eqb_eq in Ec. subst c.
        destruct s as [|d rest]; [discriminate|].
        cbn [startswith] in Es. rewrite andb_true_r in Es.
        apply N.eqb_eq in Es. subst d.
        rewrite replace_star_pair, (str_in_star_free_prefix _ _ Hnew).
        apply IH. cbn [length] in Hlen. lia.
      + cbn [replace_from]. rewrite E. cbn [str_in].
        rewrite (IH s) by (cbn [length] in Hlen; lia).
        rewrite orb_false_r, star_pair_startswith.
        rewrite star_pair_startswith in E.
        destruct (N.eqb 42 c); [|reflexivity].
        cbn [andb] in E |- *. now apply replace_keeps_head. }
  apply (H (length s)). lia.
Qed.

Lemma span_open_star_free : ~ In 42%N span_open.
Proof.
  vm_compute. intros H.
  repeat (destruct H as [H | H]; [discriminate|]). exact H.
Qed.

(** X13.  The highlighting of a logged text uses only the first of its two
    [replace] calls: the first one turns every pair of asterisks, opening or
    closing, into the opening span tag and leaves no pair of asterisks, so
    the second one finds nothing to turn into the closing tag.  A text
    without a pair of asterisks is drawn as it is; in a text with an item
    between two markers, both markers become the opening tag. *)
Theorem X13_highlighted_text (text : str) :
  highlighted_text text = str_replace (lit "**") span_open text /\
  ~ occurs (lit "**") (highlighted_text text) /\
  (~ occurs (lit "**") text -> highlighted_text text = text) /\
  (forall pre item post,
     ~ In 42%N pre -> ~ In 42%N item ->
     highlighted_text (pre ++ lit "**" ++ item ++ lit "**" ++ post) =
       pre ++ span_open ++ item ++ span_open ++ highlighted_text post).
Proof.
  assert (Hfirst : forall t,
            highlighted_text t = str_replace (lit "**") span_open t).
  { intros t. unfold highlighted_text. apply str_replace_absent.
    apply (replace_leaves_no_star_pair span_open t span_open_star_free). }
  split; [apply Hfirst|]. split; [|split].
  - rewrite Hfirst. apply str_in_false.
    apply (replace_leaves_no_star_pair span_open text span_open_star_free).
  - intros Hn. rewrite Hfirst. apply str_replace_absent. now apply str_in_false.
  - intros pre item post Hpre Hitem. rewrite !Hfirst.
    change (str_replace (lit "**") span_open) with (replace_from (lit "**") span_open 0).
    rewrite (replace_star_free_prefix _ _ _ Hpre).
    change (lit "**" ++ item ++ lit "**" ++ post)
      with (42%N :: 42%N :: item ++ lit "**" ++ post).
    rewrite replace_star_pair, (replace_star_free_prefix _ _ _ Hitem).
    change (lit "**" ++ post) with (42%N :: 42%N :: post).
    rewrite replace_star_pair. reflexivity.
Qed.

(** X13 on a narrator text that marks a sword. *)
Lemma X13_highlighted_text_witness :
  highlighted_text (lit "You found a **sword**!") =
  lit "You found a <span class='highlight'>sword<span class='highlight'>!".
Proof.
  change (lit "You found a **sword**!")
    with (lit "You found a " ++ lit "**" ++ lit "sword" ++ lit "**" ++ lit "!").
  rewrite (proj2 (proj2 (proj2 (X13_highlighted_text [])))
             (lit "You found a ") (lit "sword") (lit "!")).
  - vm_compute. reflexivity.
  - vm_compute. intros H. repeat (destruct H as [H | H]; [discriminate|]). exact H.
  - vm_compute. intros H. repeat (destruct H as [H | H]; [discriminate|]). exact H.
Defined.

(** ** The phrases of the catalog *)

(** X14.  Each discovery phrase of the catalog, given to the scan as the
    response (with [str.lower] lowering ASCII text as Python does), costs no
    health and finds exactly the item it belongs to, counting one choice;
    the one exception is the phrase of health_potion, which finds nothing. *)
Theorem X14_catalog_phrases (lower : str -> str) (g : GameState)
    (item notification : str) :
  lower_on_ascii lower -> 0 <= health g ->
  In (item, notification) inventory_items ->
  update_game_state lower notification g =
    if str_eqb item health_potion then (g, [])
    else (mk_game (health g) (inventory g) (choices_made g + 1) (Some item),
          [st_write_found item]).
Proof.
  intros Hl Hh Hin. rewrite update_game_state_closed.
  assert (Hhits : danger_hits (lower notification) = [] /\
                  item_hits (lower notification) =
                    if str_eqb item health_potion then [] else [item]).
  { cbn [inventory_items In] in Hin.
    repeat (destruct Hin as [Hin | Hin];
            [injection Hin as <- <-;
             rewrite Hl by (vm_compute; reflexivity);
             split; vm_compute; reflexivity|]).
    contradiction. }
  destruct Hhits as [-> ->].
  destruct g as [h inv c f]. cbn [health inventory choices_made found_item] in *.
  cbn [length]. replace (h - 15 * Z.of_nat 0) with h by lia.
  rewrite Z.max_l by lia.
  destruct (str_eqb item health_potion); cbn [length map last].
  - replace (c + Z.of_nat 0) with c by lia. reflexivity.
  - replace (c + Z.of_nat 1) with (c + 1) by lia. reflexivity.
Qed.

(** X14 on the phrase of the amulet. *)
Lemma X14_catalog_phrases_witness :
  update_game_state ascii_lower (lit "You found an **amulet**!")
    (mk_game 60 [] 2 None) =
  (mk_game 60 [] 3 (Some (lit "amulet")), [st_write_found (lit "amulet")]).
Proof.
  apply (X14_catalog_phrases ascii_lower (mk_game 60 [] 2 None)
           (lit "amulet") (lit "You found an **amulet**!")).
  - exact ascii_lower_on_ascii.
  - cbn. lia.
  - cbn. auto 10.
Defined.

(** ** Reloading the page *)

(** X15.  A run in which no widget fires never asks for a rerun, so the
    rerun that follows a turn or a restart is the last one; and such a run
    is idempotent: run again on the session it left, it leaves the same
    session and shows the same. *)
Theorem X15_reload_idempotent (lower : str -> str) (ss : session_state)
    (reply1 reply2 : option str) :
  exists ss1 out,
    main lower ss no_input reply1 = Some (ss1, out, false) /\
    main lower ss1 no_input reply2 = Some (ss1, out, false).
Proof.
  eexists _, _. split; [apply main_no_input|].
  rewrite main_no_input, initialize_store.
  rewrite (ensure_intro_nonempty _ (ensure_intro_history _)). reflexivity.
Qed.

(** ** The turn that ends the game *)

(** X16.  A turn and its rerun, with the player alive: the narrator's
    response is logged and scanned; the game-over message closes the page
    exactly when the damage of the response reaches the player's health,
    and then health is 0 and every later input, apart from the two buttons
    that start over, leaves the session as it is. *)
Theorem X16_lethal_turn (lower : str -> str) (ss : session_state) (text : str)
    (reply : option str) :
  let s := ensure_intro (initialize_session_state ss) in
  let g := game_state s in
  let response := fst (generate_story_response reply) in
  let dmg := 15 * Z.of_nat (length (danger_hits (lower response))) in
  0 < health g -> text <> [] ->
  exists s',
    run lower ss (chat_input text) reply =
      Some (store s',
            (snd (generate_story_response reply)
             ++ map st_write_found (item_hits (lower response)))
            ++ (if health g <=? dmg then [st_error_game_over] else [])) /\
    conversation_history s' =
      conversation_history s ++
        [mk_message role_user text; mk_message role_model response] /\
    health (game_state s') = Z.max (health g - dmg) 0 /\
    (health g <= dmg ->
     health (game_state s') = 0 /\
     forall w reply2,
       w <> click_restart_game -> w <> click_start_new_game ->
       run lower (store s') w reply2 = Some (store s', [st_error_game_over])).
Proof.
  intros s g response dmg Hh Ht.
  pose proof (run_chat_input lower ss text reply Hh Ht) as Hr. cbv zeta in Hr.
  fold s in Hr.
  destruct (play_turn_history lower text reply s) as (Hhist & _ & Hg & Ho).
  rewrite update_game_state_closed in Hg, Ho.
  cbn [fst snd health inventory choices_made found_item set_choices_made] in Hg, Ho.
  fold response in Hg, Ho, Hhist. fold g in Hg. fold dmg in Hg.
  exists (fst (play_turn lower text reply s)).
  assert (Hhealth : health (game_state (fst (play_turn lower text reply s))) =
                    Z.max (health g - dmg) 0) by (rewrite Hg; reflexivity).
  split; [|split; [exact Hhist | split; [exact Hhealth|]]].
  - rewrite Hr, Ho, Hhealth. do 2 f_equal.
    destruct (health g <=? dmg) eqn:E1;
      destruct (Z.max (health g - dmg) 0 <=? 0) eqn:E2; try reflexivity;
      [apply Z.leb_le in E1; apply Z.leb_gt in E2
      |apply Z.leb_gt in E1; apply Z.leb_le in E2]; lia.
  - intros Hd. split; [rewrite Hhealth; lia|].
    intros w reply2 Hw1 Hw2.
    assert (Hs' : ensure_intro (initialize_session_state
                    (store (fst (play_turn lower text reply s)))) =
                  fst (play_turn lower text reply s)).
    { rewrite initialize_store. apply ensure_intro_nonempty.
      rewrite Hhist. intros H. apply app_eq_nil in H as [_ H]. discriminate. }
    assert (Hm : main lower (store (fst (play_turn lower text reply s))) w reply2 =
                 Some (store (fst (play_turn lower text reply s)),
                       [st_error_game_over], false)).
    { rewrite main_defeated.
      - rewrite Hs'. destruct w; try reflexivity; contradiction.
      - rewrite Hs', Hhealth. lia.
      - destruct w; try reflexivity; contradiction. }
    unfold run. rewrite Hm. reflexivity.
Qed.

(** X16 on a response with two danger keywords, from health 20. *)
Lemma X16_lethal_turn_witness :
  exists s',
    run ascii_lower
      (store (mk_session [intro_message] [intro_message] (mk_game 20 [] 9 None)))
      (chat_input (lit "draw my blade"))
      (Some (lit "You fight the beast and fall into a trap.")) =
    Some (store s', [st_error_game_over]) /\
    health (game_state s') = 0.
Proof.
  destruct (X16_lethal_turn ascii_lower
              (store (mk_session [intro_message] [intro_message] (mk_game 20 [] 9 None)))
              (lit "draw my blade")
              (Some (lit "You fight the beast and fall into a trap.")))
    as (s' & Hr & _ & _ & Hd).
  - reflexivity.
  - discriminate.
  - exists s'. split; [exact Hr|]. apply Hd. vm_compute. discriminate.
Defined.

(** ** Exceptions and the sidebar *)

Lemma display_game_state_raises (capitalize : str -> str) (g : GameState) :
  display_game_state capitalize g = None <-> 100 < health g.
Proof.
  unfold display_game_state. cbv zeta.
  destruct (100 <? Z.max 0 (health g)) eqn:E.
  - apply Z.ltb_lt in E. split; [lia | reflexivity].
  - apply Z.ltb_ge in E. split; [discriminate | lia].
Qed.

Lemma main_page_reach (capitalize lower : str -> str) (ss : session_state)
    (w : widget_input) (reply : option str) :
  session_reach_inv ss ->
  main_page capitalize lower ss w reply = main lower ss w reply.
Proof.
  intros Hinv. unfold main_page.
  destruct (button_restart_game w); [reflexivity|].
  destruct (display_game_state capitalize _) eqn:E; [reflexivity|].
  apply display_game_state_raises in E. rewrite ensure_intro_game in E.
  exfalso. unfold session_reach_inv in Hinv.
  unfold initialize_session_state in E. cbn [game_state] in E.
  destruct (ss_game_state ss) as [g|].
  - destruct Hinv as ((_ & _ & Hh) & _). lia.
  - cbn in E. lia.
Qed.

Lemma run_page_reach (capitalize lower : str -> str) (ss : session_state)
    (w : widget_input) (reply : option str) :
  session_reach_inv ss ->
  run_page capitalize lower ss w reply = run lower ss w reply.
Proof.
  intros Hinv. unfold run_page, run. rewrite (main_page_reach _ _ _ _ _ Hinv).
  destruct (main lower ss w reply) as [[[ss1 out1] again]|] eqn:E; [|reflexivity].
  destruct again; [|reflexivity].
  rewrite (main_page_reach capitalize lower ss1 no_input None
             (main_reach_inv _ _ _ _ _ _ _ Hinv E)).
  reflexivity.
Qed.

Lemma runs_page_reach (capitalize lower : str -> str)
    (inputs : list (widget_input * option str)) (ss : session_state) :
  session_reach_inv ss ->
  exists ss', runs_page capitalize lower ss inputs = Some ss' /\
              runs lower ss inputs = Some ss'.
Proof.
  revert ss. induction inputs as [|[w reply] rest IH]; intros ss Hinv.
  - exists ss. split; reflexivity.
  - cbn [runs_page runs]. rewrite (run_page_reach _ _ _ _ _ Hinv).
    destruct (run_total lower ss w reply) as ([ss1 out1] & E). rewrite E.
    apply IH. eapply run_reach_inv; eauto.
Qed.

(** X1.  Where the script can and cannot stop on an exception.
    [list.remove] in [use_health_potion] never raises, because the
    membership test guards it.  The progress bar of [display_game_state]
    raises exactly when health is above 100, and then every run but a click
    on "Restart Game" stops there.  No session reached from the first page
    load gets there: for any inputs and any generator answers the page, with
    the sidebar drawn in every run, never stops on an exception, and it
    leaves the session that the runs without the sidebar leave. *)
Theorem X1_no_uncaught_exception (capitalize lower : str -> str)
    (inputs : list (widget_input * option str)) :
  (forall g, exists r, use_health_potion g = Some r) /\
  (forall g, display_game_state capitalize g = None <-> 100 < health g) /\
  (forall ss w reply,
     button_restart_game w = false ->
     100 < health (game_state (initialize_session_state ss)) ->
     main_page capitalize lower ss w reply = None) /\
  (exists ss',
     runs_page capitalize lower session_clear inputs = Some ss' /\
     runs lower session_clear inputs = Some ss').
Proof.
  split; [exact use_health_potion_total|].
  split; [apply display_game_state_raises|]. split.
  - intros ss w reply Hw Hh. unfold main_page. rewrite Hw.
    rewrite <- ensure_intro_game in Hh.
    apply (display_game_state_raises capitalize) in Hh. rewrite Hh. reflexivity.
  - apply runs_page_reach. exact I.
Qed.

(** X1 on a stored session with health 130, which no run produces: the
    page stops in the sidebar, and "Restart Game" still works. *)
Lemma X1_no_uncaught_exception_witness :
  main_page ascii_capitalize ascii_lower
    (store (mk_session [intro_message] [intro_message] (mk_game 130 [] 0 None)))
    no_input None = None /\
  main_page ascii_capitalize ascii_lower
    (store (mk_session [intro_message] [intro_message] (mk_game 130 [] 0 None)))
    click_restart_game None = Some (session_clear, [], true).
Proof.
  split; [|reflexivity].
  apply (proj1 (proj2 (proj2
           (X1_no_uncaught_exception ascii_capitalize ascii_lower [])))).
  - reflexivity.
  - reflexivity.
Defined.
